(** * Spreadsheet component: grid/sheet state model

    A shallow embedding of the [Spreadsheet] React component
    (components/Spreadsheet.tsx): cell addressing, the sheet collection,
    the selection/edit lifecycle and the pointer-drag resize protocol.

    Conventions of the embedding.
    - JS numbers that the component manipulates are grid indices, pixel
      coordinates and clock readings: integers in the range where a JS
      number is exact and prints in plain decimal, modelled as [Z].  A
      number that may be [NaN] (the result of [parseInt]) is an [option Z].
    - JS strings are [string]; cell ids and sheet ids are ASCII.
    - A JS object used as a dictionary is a [gmap string _]: property keys
      are strings, a numeric key is its decimal rendering.
    - [string | null] state is [option string].
    - An event handler is a closure over the values of the render that
      created it.  Handlers therefore take the render snapshot [snap] they
      read from and transform the pending state [cur] they write to; a
      [setX(v)] call is [setX v cur], a functional [setSheets(prev => ..)]
      is [setSheets f cur].
    - Rendering, focus, [preventDefault] and listener registration are not
      part of the state and are left out; [Date.now()] is an input of the
      event that reads it. *)

From Stdlib Require Import ZArith String Ascii List Lia.
From stdpp Require Import base decidable option list sorting strings gmap pretty.

Local Open Scope Z_scope.

(** ** JavaScript primitives used by the component *)

Module JS.

(** [arr[i]] for a numeric index: [undefined] outside the array. *)
Definition at_index {A} (arr : list A) (i : Z) : option A :=
  if decide (0 ≤ i) then arr !! Z.to_nat i else None.

(** A possibly-undefined string inside a template literal. *)
Definition interpolate (v : option string) : string :=
  default "undefined" v.

(** [Number.prototype.toString] on an integer. *)
Definition toString (n : Z) : string := pretty n.

(** [s.slice(1)]. *)
Definition slice1 (s : string) : string :=
  match s with
  | String _ rest => rest
  | EmptyString => EmptyString
  end.

(** [s[0]]: the first character as a string, [undefined] on [""]. *)
Definition char0 (s : string) : option string :=
  match s with
  | String c _ => Some (String c EmptyString)
  | EmptyString => None
  end.

(** [arr.indexOf(x)], where [x] may be [undefined]. *)
Fixpoint indexOf_from (arr : list string) (x : string) (i : Z) : Z :=
  match arr with
  | [] => -1
  | y :: arr' => if decide (y = x) then i else indexOf_from arr' x (i + 1)
  end.

Definition indexOf (arr : list string) (x : option string) : Z :=
  match x with
  | Some x => indexOf_from arr x 0
  | None => -1
  end.

(** [arr.find(p)]. *)
Fixpoint find {A} (p : A → bool) (arr : list A) : option A :=
  match arr with
  | [] => None
  | x :: arr' => if p x then Some x else find p arr'
  end.

(** Truthiness of a [string | null] value: [null] and [""] are falsy. *)
Definition truthy (v : option string) : bool :=
  match v with
  | Some s => negb (bool_decide (s = EmptyString))
  | None => false
  end.

(** *** [parseInt(s)] (no radix argument) *)

Definition is_whitespace (c : ascii) : bool :=
  let n := nat_of_ascii c in
  bool_decide (n = 9 ∨ n = 10 ∨ n = 11 ∨ n = 12 ∨ n = 13 ∨ n = 32)%nat.

Fixpoint skip_whitespace (s : string) : string :=
  match s with
  | String c rest => if is_whitespace c then skip_whitespace rest else s
  | EmptyString => EmptyString
  end.

Definition digit_value (radix : Z) (c : ascii) : option Z :=
  let n := Z.of_nat (nat_of_ascii c) in
  let v :=
    if decide (48 ≤ n ≤ 57) then Some (n - 48)
    else if decide (97 ≤ n ≤ 122) then Some (n - 87)
    else if decide (65 ≤ n ≤ 90) then Some (n - 55)
    else None in
  v ≫= λ d, if decide (d < radix) then Some d else None.

(** Longest prefix of digits; [acc] is [None] until a digit is read. *)
Fixpoint parse_digits (radix : Z) (s : string) (acc : option Z) : option Z :=
  match s with
  | String c rest =>
      match digit_value radix c with
      | Some d => parse_digits radix rest (Some (default 0 acc * radix + d))
      | None => acc
      end
  | EmptyString => acc
  end.

Definition strip_sign (s : string) : Z * string :=
  match s with
  | String "-" rest => (-1, rest)
  | String "+" rest => (1, rest)
  | _ => (1, s)
  end.

Definition strip_hex_prefix (s : string) : Z * string :=
  match s with
  | String "0" (String "x" rest) => (16, rest)
  | String "0" (String "X" rest) => (16, rest)
  | _ => (10, s)
  end.

(** [None] is [NaN]. *)
Definition parseInt (s : string) : option Z :=
  let '(sign, s) := strip_sign (skip_whitespace s) in
  let '(radix, s) := strip_hex_prefix s in
  (λ n, sign * n) <$> parse_digits radix s None.

End JS.

(** ** Constants (Spreadsheet.tsx, lines 17-22) *)

Definition COLUMNS : list string :=
  (λ i, String (ascii_of_nat (65 + i)) EmptyString) <$> seq 0 26.
Definition ROWS : Z := 50.
Definition DEFAULT_COLUMN_WIDTH : Z := 96.
Definition DEFAULT_ROW_HEIGHT : Z := 24.
Definition MIN_COLUMN_WIDTH : Z := 20.
Definition MIN_ROW_HEIGHT : Z := 15.

(** [COLUMNS.length] *)
Definition COLUMNS_length : Z := Z.of_nat (length COLUMNS).

(** ** Cell addressing *)

(** [getCellId] (line 130). *)
Definition getCellId (row col : Z) : string :=
  JS.interpolate (JS.at_index COLUMNS col) +:+ JS.toString (row + 1).

(** The decoding of a selected cell id in the formula bar (line 312):
    [parseInt(selectedCell.slice(1)) - 1] and
    [COLUMNS.indexOf(selectedCell[0])]. *)
Definition rowOf (cellId : string) : option Z :=
  (λ n, n - 1) <$> JS.parseInt (JS.slice1 cellId).

Definition colOf (cellId : string) : Z :=
  JS.indexOf COLUMNS (JS.char0 cellId).

(** ** Data model (lines 5-15, 31-42) *)

Module Sheet.

(** [interface Sheet]; the optional fields are [None] when absent. *)
Record t := mk {
  id : string;
  name : string;
  data : gmap string string;
  columnWidths : option (gmap string Z);
  rowHeights : option (gmap string Z)
}.

(** Object spreads [{ ...sheet, field: v }]. *)
Definition with_name (v : string) (s : t) : t :=
  mk (id s) v (data s) (columnWidths s) (rowHeights s).
Definition with_data (v : gmap string string) (s : t) : t :=
  mk (id s) (name s) v (columnWidths s) (rowHeights s).
Definition with_dimensions (cw rh : option (gmap string Z)) (s : t) : t :=
  mk (id s) (name s) (data s) cw rh.

End Sheet.

Inductive ResizeKind := Column | Row.

(** [number | string]: a row index or a column label. *)
Inductive ResizeIndex :=
| Label (col : string)
| Number (row : Z).

Global Instance ResizeKind_eq_dec : EqDecision ResizeKind.
Proof. solve_decision. Defined.
Global Instance ResizeIndex_eq_dec : EqDecision ResizeIndex.
Proof. solve_decision. Defined.

(** The component state: one field per [useState] hook. *)
Record State := mkState {
  sheets : list Sheet.t;
  activeSheetId : string;
  selectedCell : option string;
  editingCell : option string;
  cellValue : string;
  isResizing : bool;
  resizingType : option ResizeKind;
  resizingIndex : option ResizeIndex;
  resizeStartPos : Z;
  resizeStartSize : Z
}.

(** State setters.  [setSheets] takes an updater, as in
    [setSheets(prevSheets => ...)]; a plain [setSheets(v)] is
    [setSheets (λ _, v)]. *)
Definition setSheets (f : list Sheet.t → list Sheet.t) (st : State) : State :=
  mkState (f (sheets st)) (activeSheetId st) (selectedCell st) (editingCell st)
    (cellValue st) (isResizing st) (resizingType st) (resizingIndex st)
    (resizeStartPos st) (resizeStartSize st).
Definition setActiveSheetId (v : string) (st : State) : State :=
  mkState (sheets st) v (selectedCell st) (editingCell st)
    (cellValue st) (isResizing st) (resizingType st) (resizingIndex st)
    (resizeStartPos st) (resizeStartSize st).
Definition setSelectedCell (v : option string) (st : State) : State :=
  mkState (sheets st) (activeSheetId st) v (editingCell st)
    (cellValue st) (isResizing st) (resizingType st) (resizingIndex st)
    (resizeStartPos st) (resizeStartSize st).
Definition setEditingCell (v : option string) (st : State) : State :=
  mkState (sheets st) (activeSheetId st) (selectedCell st) v
    (cellValue st) (isResizing st) (resizingType st) (resizingIndex st)
    (resizeStartPos st) (resizeStartSize st).
Definition setCellValue (v : string) (st : State) : State :=
  mkState (sheets st) (activeSheetId st) (selectedCell st) (editingCell st)
    v (isResizing st) (resizingType st) (resizingIndex st)
    (resizeStartPos st) (resizeStartSize st).
Definition setIsResizing (v : bool) (st : State) : State :=
  mkState (sheets st) (activeSheetId st) (selectedCell st) (editingCell st)
    (cellValue st) v (resizingType st) (resizingIndex st)
    (resizeStartPos st) (resizeStartSize st).
Definition setResizingType (v : option ResizeKind) (st : State) : State :=
  mkState (sheets st) (activeSheetId st) (selectedCell st) (editingCell st)
    (cellValue st) (isResizing st) v (resizingIndex st)
    (resizeStartPos st) (resizeStartSize st).
Definition setResizingIndex (v : option ResizeIndex) (st : State) : State :=
  mkState (sheets st) (activeSheetId st) (selectedCell st) (editingCell st)
    (cellValue st) (isResizing st) (resizingType st) v
    (resizeStartPos st) (resizeStartSize st).
Definition setResizeStartPos (v : Z) (st : State) : State :=
  mkState (sheets st) (activeSheetId st) (selectedCell st) (editingCell st)
    (cellValue st) (isResizing st) (resizingType st) (resizingIndex st)
    v (resizeStartSize st).
Definition setResizeStartSize (v : Z) (st : State) : State :=
  mkState (sheets st) (activeSheetId st) (selectedCell st) (editingCell st)
    (cellValue st) (isResizing st) (resizingType st) (resizingIndex st)
    (resizeStartPos st) v.

(** The [useState] initial values (lines 31-42). *)
Definition initialState : State :=
  mkState [Sheet.mk "1" "Sheet1" ∅ None None] "1" None None ""
          false None None 0 0.

(** ** Outcome of an event handler

    A handler either runs to completion or throws a [TypeError] on a
    property access of [undefined]; the state updates queued before the
    throw are kept in the outcome. *)
Inductive Result :=
| Done (st : State)
| Threw (st : State).

Definition Handler := State → Result.

Definition bind (h : Handler) (k : Handler) : Handler :=
  λ cur, match h cur with
         | Done cur' => k cur'
         | Threw cur' => Threw cur'
         end.

(** A sequence of state setters never throws. *)
Definition pure (f : State → State) : Handler := λ cur, Done (f cur).

Notation "h1 >>> h2" := (bind h1 h2) (at level 90, right associativity).

(** ** Reading the active sheet (lines 45-62, 132-135) *)

(** [sheets.find(s => s.id === activeSheetId) || sheets[0]];
    [None] when the collection is empty. *)
Definition activeSheet (st : State) : option Sheet.t :=
  match JS.find (λ s, bool_decide (Sheet.id s = activeSheetId st)) (sheets st) with
  | Some s => Some s
  | None => JS.at_index (sheets st) 0
  end.

(** [sheet.data[cellId] || ''] *)
Definition getCell (sheet : Sheet.t) (cellId : string) : string :=
  default "" (Sheet.data sheet !! cellId).

(** [m?.[key] || dflt] on an optional dictionary of numbers: an absent
    dictionary, an absent key and a stored [0] all give the default. *)
Definition lookup_or (m : option (gmap string Z)) (key : string) (dflt : Z) : Z :=
  match m ≫= (.!! key) with
  | Some v => if decide (v = 0) then dflt else v
  | None => dflt
  end.

(** The property key of a resize index. *)
Definition index_key (i : ResizeIndex) : string :=
  match i with
  | Label col => col
  | Number row => JS.toString row
  end.

(** [getColumnWidth], [getRowHeight] and [getCellValue] read the render's
    [activeSheet]; they throw when it is [undefined]. *)
Definition getColumnWidth (snap : State) (col : string) : option Z :=
  (λ s, lookup_or (Sheet.columnWidths s) col DEFAULT_COLUMN_WIDTH) <$> activeSheet snap.

Definition getRowHeight (snap : State) (row : string) : option Z :=
  (λ s, lookup_or (Sheet.rowHeights s) row DEFAULT_ROW_HEIGHT) <$> activeSheet snap.

Definition getCellValue (snap : State) (row col : Z) : option string :=
  (λ s, getCell s (getCellId row col)) <$> activeSheet snap.

(** ** Sheet store updaters *)

(** The updater passed to [setSheets] by the commit (lines 151-157), by the
    formula bar (lines 316-322) and by the sheet tab (lines 424-430): the
    same expression in the three places,
    [prevSheets.map(sheet => sheet.id === sheetId
       ? { ...sheet, data: { ...sheet.data, [cellId]: value } } : sheet)].
    [writeCell] is the function mapped over the sheets. *)
Definition writeCell (sheetId cellId value : string) (sheet : Sheet.t) : Sheet.t :=
  if decide (Sheet.id sheet = sheetId)
  then Sheet.with_data (<[cellId := value]> (Sheet.data sheet)) sheet
  else sheet.

Definition setCell (sheetId cellId value : string)
    (prevSheets : list Sheet.t) : list Sheet.t :=
  writeCell sheetId cellId value <$> prevSheets.

(** [{ ...old, ...new }] on optional dictionaries; [new] is given. *)
Definition spread_merge (old : option (gmap string Z)) (new : gmap string Z)
  : gmap string Z := new ∪ default ∅ old.

(** [updateSheetDimensions] (lines 76-88). *)
Definition updateSheetDimensions (snap : State)
    (columnWidths rowHeights : option (gmap string Z)) : State → State :=
  setSheets (λ prevSheets,
    (λ sheet,
       if decide (Sheet.id sheet = activeSheetId snap)
       then Sheet.with_dimensions
              (match columnWidths with
               | Some cw => Some (spread_merge (Sheet.columnWidths sheet) cw)
               | None => Sheet.columnWidths sheet
               end)
              (match rowHeights with
               | Some rh => Some (spread_merge (Sheet.rowHeights sheet) rh)
               | None => Sheet.rowHeights sheet
               end)
              sheet
       else sheet) <$> prevSheets).

(** Evaluating an expression that throws when a property of [undefined]
    is read. *)
Definition eval {A} (v : option A) (k : A → State → State) : Handler :=
  λ cur, match v with
         | Some a => Done (k a cur)
         | None => Threw cur
         end.

(** ** Resize protocol (lines 64-128) *)

(** [handleResizeStart]; [clientX], [clientY] are the event's pointer
    coordinates. *)
Definition handleResizeStart (snap : State) (type : ResizeKind)
    (index : ResizeIndex) (clientX clientY : Z) : Handler :=
  pure (setIsResizing true) >>>
  pure (setResizingType (Some type)) >>>
  pure (setResizingIndex (Some index)) >>>
  pure (setResizeStartPos (match type with Column => clientX | Row => clientY end)) >>>
  eval (match type with
        | Column => getColumnWidth snap (index_key index)
        | Row => getRowHeight snap (index_key index)
        end) setResizeStartSize.

(** The size computed by [handleMouseMove] (lines 95-100). *)
Definition newSize (type : ResizeKind) (startSize startPos currentPos : Z) : Z :=
  let diff := currentPos - startPos in
  Z.max (match type with Column => MIN_COLUMN_WIDTH | Row => MIN_ROW_HEIGHT end)
        (startSize + diff).

(** [handleMouseMove] (lines 92-107). *)
Definition handleMouseMove (snap : State) (clientX clientY : Z) : State → State :=
  match isResizing snap, resizingType snap, resizingIndex snap with
  | true, Some type, Some index =>
      let currentPos := match type with Column => clientX | Row => clientY end in
      let size := newSize type (resizeStartSize snap) (resizeStartPos snap) currentPos in
      match type with
      | Column => updateSheetDimensions snap (Some {[ index_key index := size ]}) None
      | Row => updateSheetDimensions snap None (Some {[ index_key index := size ]})
      end
  | _, _, _ => λ cur, cur
  end.

(** [handleMouseUp] (lines 109-113). *)
Definition handleMouseUp : State → State :=
  λ cur, setResizingIndex None (setResizingType None (setIsResizing false cur)).

(** ** Selection and editing (lines 137-200) *)

Definition handleCellClick (snap : State) (row col : Z) : Handler :=
  let cellId := getCellId row col in
  pure (setSelectedCell (Some cellId)) >>>
  pure (setEditingCell (Some cellId)) >>>
  eval (getCellValue snap row col) setCellValue.

Definition handleCellChange (value : string) : State → State :=
  setCellValue value.

Definition handleCellBlur (snap : State) : State → State :=
  λ cur,
    let cur :=
      match selectedCell snap with
      | Some cellId =>
          if JS.truthy (selectedCell snap)
             && bool_decide (editingCell snap = selectedCell snap)
          then setSheets (setCell (activeSheetId snap) cellId (cellValue snap)) cur
          else cur
      | None => cur
      end in
    setEditingCell None cur.

(** [handleKeyDown]; [key] is [e.key], [(row, col)] the cell whose input
    received the key. *)
Definition handleKeyDown (snap : State) (key : string) (row col : Z) : Handler :=
  if decide (key = "Enter") then
    pure (handleCellBlur snap) >>>
    if decide (row < ROWS - 1) then handleCellClick snap (row + 1) col else pure (λ cur, cur)
  else if decide (key = "Tab") then
    pure (handleCellBlur snap) >>>
    if decide (col < COLUMNS_length - 1) then handleCellClick snap row (col + 1) else pure (λ cur, cur)
  else if decide (key = "ArrowDown") then
    pure (handleCellBlur snap) >>>
    if decide (row < ROWS - 1) then handleCellClick snap (row + 1) col else pure (λ cur, cur)
  else if decide (key = "ArrowUp") then
    pure (handleCellBlur snap) >>>
    if decide (row > 0) then handleCellClick snap (row - 1) col else pure (λ cur, cur)
  else if decide (key = "ArrowRight") then
    pure (handleCellBlur snap) >>>
    if decide (col < COLUMNS_length - 1) then handleCellClick snap row (col + 1) else pure (λ cur, cur)
  else if decide (key = "ArrowLeft") then
    pure (handleCellBlur snap) >>>
    if decide (col > 0) then handleCellClick snap row (col - 1) else pure (λ cur, cur)
  else pure (λ cur, cur).

(** The formula bar's [onChange] (lines 313-324). *)
Definition formulaBarChange (snap : State) (value : string) : State → State :=
  λ cur,
    let cur := setCellValue value cur in
    match selectedCell snap with
    | Some cellId =>
        if JS.truthy (selectedCell snap)
        then setSheets (setCell (activeSheetId snap) cellId value) cur
        else cur
    | None => cur
    end.

(** ** Sheet collection (lines 202-230, 421-433) *)

(** [addNewSheet]; [now] is the reading of [Date.now()]. *)
Definition addNewSheet (snap : State) (now : Z) : State → State :=
  let newSheetNumber := Z.of_nat (length (sheets snap)) + 1 in
  let newSheet :=
    Sheet.mk (JS.toString now) ("Sheet" +:+ JS.toString newSheetNumber)
             ∅ (Some ∅) (Some ∅) in
  λ cur, setActiveSheetId (Sheet.id newSheet)
           (setSheets (λ _, sheets snap ++ [newSheet]) cur).

Definition deleteSheet (snap : State) (sheetId : string) : Handler :=
  if decide (length (sheets snap) = 1%nat) then pure (λ cur, cur)
  else
    let newSheets := filter (λ s, Sheet.id s ≠ sheetId) (sheets snap) in
    pure (setSheets (λ _, newSheets)) >>>
    if decide (activeSheetId snap = sheetId)
    then eval (JS.at_index newSheets 0) (λ s, setActiveSheetId (Sheet.id s))
    else pure (λ cur, cur).

Definition renameSheet (sheetId newName : string) : State → State :=
  setSheets (λ prevSheets,
    (λ sheet, if decide (Sheet.id sheet = sheetId)
              then Sheet.with_name newName sheet else sheet) <$> prevSheets).

(** The [onClick] of the tab of sheet [sheetId] (lines 421-433);
    [cellValue] is a string, never [undefined]. *)
Definition sheetTabClick (snap : State) (sheetId : string) : State → State :=
  λ cur,
    let cur :=
      match selectedCell snap with
      | Some cellId =>
          if JS.truthy (selectedCell snap)
             && bool_decide (editingCell snap = selectedCell snap)
          then setSheets (setCell (activeSheetId snap) cellId (cellValue snap)) cur
          else cur
      | None => cur
      end in
    setActiveSheetId sheetId cur.

(** ** Events and the render loop *)

Inductive Event :=
| CellClick (row col : Z)
| CellChange (value : string)
| CellBlur
| KeyDown (key : string) (row col : Z)
| FormulaBarChange (value : string)
| AddNewSheet (now : Z)
| DeleteSheet (sheetId : string)
| RenameSheet (sheetId newName : string)
| SheetTabClick (sheetId : string)
| ResizeStart (type : ResizeKind) (index : ResizeIndex) (clientX clientY : Z)
| MouseMove (clientX clientY : Z)
| MouseUp.

Definition handler (snap : State) (e : Event) : Handler :=
  match e with
  | CellClick row col => handleCellClick snap row col
  | CellChange value => pure (handleCellChange value)
  | CellBlur => pure (handleCellBlur snap)
  | KeyDown key row col => handleKeyDown snap key row col
  | FormulaBarChange value => pure (formulaBarChange snap value)
  | AddNewSheet now => pure (addNewSheet snap now)
  | DeleteSheet sheetId => deleteSheet snap sheetId
  | RenameSheet sheetId newName => pure (renameSheet sheetId newName)
  | SheetTabClick sheetId => pure (sheetTabClick snap sheetId)
  | ResizeStart type index x y => handleResizeStart snap type index x y
  | MouseMove x y => pure (handleMouseMove snap x y)
  | MouseUp => pure handleMouseUp
  end.

(** The effect with dependency [[activeSheetId]] (lines 48-52). *)
Definition clearSelection : State → State :=
  λ cur, setCellValue "" (setEditingCell None (setSelectedCell None cur)).

(** One event: the handler of the current render runs on the current
    state, then the effect runs if [activeSheetId] changed. *)
Definition step (st : State) (e : Event) : Result :=
  match handler st e st with
  | Done st' =>
      Done (if decide (activeSheetId st' = activeSheetId st)
            then st' else clearSelection st')
  | Threw st' => Threw st'
  end.

(** A sequence of events; it stops at the first throw. *)
Fixpoint run (st : State) (es : list Event) : Result :=
  match es with
  | [] => Done st
  | e :: es' =>
      match step st e with
      | Done st' => run st' es'
      | Threw st' => Threw st'
      end
  end.

(** States reached from the initial one by any sequence of events, offered
    by the interface or not. *)
Inductive reachable : State → Prop :=
| reachable_init : reachable initialState
| reachable_step st e st' :
    reachable st → step st e = Done st' → reachable st'.

(** ** Vocabulary of the properties *)

(** The ids of the collection, in tab order. *)
Definition sheetIds (st : State) : list string := Sheet.id <$> sheets st.

(** Invariant (b) of the collection: [activeSheetId] names a sheet. *)
Definition has_active (st : State) : Prop := activeSheetId st ∈ sheetIds st.

(** Invariant (c): ids are pairwise distinct. *)
Definition unique_ids (st : State) : Prop := NoDup (sheetIds st).

(** The selection states of the component. *)
Definition Idle (st : State) : Prop :=
  selectedCell st = None ∧ editingCell st = None ∧ cellValue st = EmptyString.

Definition Selected (st : State) (cellId : string) : Prop :=
  selectedCell st = Some cellId ∧ editingCell st = None.

Definition Editing (st : State) (cellId draft : string) : Prop :=
  selectedCell st = Some cellId ∧ editingCell st = Some cellId ∧
  cellValue st = draft.

(** The keys on which [handleKeyDown] acts. *)
Definition directional_keys : list string :=
  ["Enter"; "Tab"; "ArrowDown"; "ArrowUp"; "ArrowRight"; "ArrowLeft"].

(** Events that commit the draft: blur of the cell input, or one of the
    directional keys pressed in it. *)
Inductive commit_event : Event → Prop :=
| commit_blur : commit_event CellBlur
| commit_key key row col :
    key ∈ directional_keys → commit_event (KeyDown key row col).

(** The cell a directional key asks to move to: Enter and ArrowDown one row
    down, Tab and ArrowRight one column right, ArrowUp one row up, ArrowLeft
    one column left. *)
Definition destination (key : string) (row col : Z) : option (Z * Z) :=
  if decide (key = "Enter" ∨ key = "ArrowDown") then Some (row + 1, col)
  else if decide (key = "Tab" ∨ key = "ArrowRight") then Some (row, col + 1)
  else if decide (key = "ArrowUp") then Some (row - 1, col)
  else if decide (key = "ArrowLeft") then Some (row, col - 1)
  else None.

(** Grid bounds: rows [0,50), columns [0,26). *)
Definition in_grid (row col : Z) : bool :=
  bool_decide (0 ≤ row < ROWS ∧ 0 ≤ col < COLUMNS_length).

(** The sheets that [deleteSheet] keeps. *)
Definition remaining (sheetId : string) (l : list Sheet.t) : list Sheet.t :=
  filter (λ s, Sheet.id s ≠ sheetId) l.


(** The readings of [Date.now()] taken by the [addNewSheet] calls of a
    sequence, in order. *)
Fixpoint clock_readings (es : list Event) : list Z :=
  match es with
  | [] => []
  | AddNewSheet now :: es' => now :: clock_readings es'
  | _ :: es' => clock_readings es'
  end.

(** No two creations read the same value from the clock, and none reads 1
    (the initial sheet has id "1"). *)
Definition readings_distinct (es : list Event) : Prop :=
  NoDup (1 :: clock_readings es).

(** The invariants of the collection. *)
Definition wf_collection (st : State) : Prop :=
  sheets st ≠ [] ∧ has_active st ∧ unique_ids st.

(** Every id is the rendering of one of the numbers of [l]. *)
Definition ids_among (l : list Z) (st : State) : Prop :=
  Forall (λ i, i ∈ JS.toString <$> l) (sheetIds st).

Definition minimum (type : ResizeKind) : Z :=
  match type with Column => MIN_COLUMN_WIDTH | Row => MIN_ROW_HEIGHT end.

(** The override dictionary of a sheet for one kind of drag. *)
Definition overrides (type : ResizeKind) (s : Sheet.t) : option (gmap string Z) :=
  match type with Column => Sheet.columnWidths s | Row => Sheet.rowHeights s end.

Definition other_kind (type : ResizeKind) : ResizeKind :=
  match type with Column => Row | Row => Column end.

(** The pointer coordinate along the axis of the drag. *)
Definition pointer (type : ResizeKind) (clientX clientY : Z) : Z :=
  match type with Column => clientX | Row => clientY end.

(** A drag is in progress. *)
Definition Dragging (st : State) (type : ResizeKind) (index : ResizeIndex) : Prop :=
  isResizing st = true ∧ resizingType st = Some type ∧
  resizingIndex st = Some index.

(** Every stored override respects its minimum. *)
Definition sheet_geometry_ok (s : Sheet.t) : Prop :=
  ∀ type m, overrides type s = Some m →
    map_Forall (λ _ size, minimum type ≤ size) m.

Definition geometry_ok (st : State) : Prop := Forall sheet_geometry_ok (sheets st).

(** The write of [updateSheetDimensions] for a drag of one kind, on one
    sheet. *)
Definition resizeSheet (type : ResizeKind) (key : string) (size : Z)
    (s : Sheet.t) : Sheet.t :=
  match type with
  | Column =>
      Sheet.with_dimensions
        (Some (spread_merge (Sheet.columnWidths s) {[ key := size ]}))
        (Sheet.rowHeights s) s
  | Row =>
      Sheet.with_dimensions
        (Sheet.columnWidths s)
        (Some (spread_merge (Sheet.rowHeights s) {[ key := size ]})) s
  end.

(** The events the rendered interface can deliver in a state. *)
Definition offered (st : State) (e : Event) : Prop :=
  match e with
  | CellClick row col => in_grid row col = true
  | CellChange _ | CellBlur =>
      ∃ row col, in_grid row col = true ∧ editingCell st = Some (getCellId row col)
  | KeyDown _ row col =>
      in_grid row col = true ∧ editingCell st = Some (getCellId row col)
  | FormulaBarChange _ | AddNewSheet _ => True
  | DeleteSheet sheetId =>
      sheetId ∈ sheetIds st ∧ (1 < length (sheets st))%nat
  | RenameSheet sheetId _ | SheetTabClick sheetId => sheetId ∈ sheetIds st
  | ResizeStart Column (Label col) _ _ => col ∈ COLUMNS
  | ResizeStart Row (Number row) _ _ => 0 ≤ row < ROWS
  | ResizeStart _ _ _ _ => False
  | MouseMove _ _ | MouseUp => isResizing st = true
  end.

(** States reached from the initial one through offered events. *)
Inductive ui_reachable : State → Prop :=
| ui_reachable_init : ui_reachable initialState
| ui_reachable_step st e st' :
    ui_reachable st → offered st e → step st e = Done st' → ui_reachable st'.

(** The selected cell is a cell of the grid, and an open input sits on the
    selected cell. *)
Definition selection_ok (st : State) : Prop :=
  (∀ c, selectedCell st = Some c →
        ∃ row col, in_grid row col = true ∧ c = getCellId row col) ∧
  (∀ c, editingCell st = Some c → selectedCell st = Some c).

(** A sequence of events delivered by the rendered interface from [st]:
    each event is one the interface offers in the state it fires in.  A
    throw ends the sequence: [run] executes nothing after it. *)
Fixpoint delivered (st : State) (es : list Event) : Prop :=
  match es with
  | [] => True
  | e :: es' =>
      offered st e ∧
      match step st e with
      | Done st' => delivered st' es'
      | Threw _ => True
      end
  end.

(** ** Sample states and sequences *)

Definition editing_B2 : State :=
  mkState [Sheet.mk "1" "Sheet1" ∅ None None] "1" (Some "B2") (Some "B2") "42"
          false None None 0 0.

Definition editing_A1 : State :=
  mkState [Sheet.mk "1" "Sheet1" ∅ None None] "1" (Some "A1") (Some "A1") "x"
          false None None 0 0.
Definition editing_Z50 : State :=
  mkState [Sheet.mk "1" "Sheet1" ∅ None None] "1" (Some "Z50") (Some "Z50") "x"
          false None None 0 0.

Definition two_sheets_editing_C3 : State :=
  mkState [Sheet.mk "1" "Sheet1" ∅ None None;
           Sheet.mk "1700000000000" "Sheet2" ∅ (Some ∅) (Some ∅)]
          "1" (Some "C3") (Some "C3") "draft" false None None 0 0.

Definition editing_C3 : State :=
  mkState [Sheet.mk "1" "Sheet1" ∅ None None] "1" (Some "C3") (Some "C3") ""
          false None None 0 0.

Definition two_sheets : State :=
  mkState [Sheet.mk "1" "Sheet1" ∅ None None;
           Sheet.mk "1700000000000" "Sheet2" ∅ (Some ∅) (Some ∅)]
          "1700000000000" None None "" false None None 0 0.


Definition dragging_A : State :=
  mkState [Sheet.mk "1" "Sheet1" ∅ None None] "1" None None ""
          true (Some Column) (Some (Label "A")) 100 96.

(** A sheet that holds a cell entry, a column width and a row height. *)
Definition filled_sheet : Sheet.t :=
  Sheet.mk "1" "Sheet1" {[ "B2" := "41" ]}
           (Some {[ "A" := 120 ]}) (Some {[ "0" := 30 ]}).

Definition filled_dragging_B : State :=
  mkState [filled_sheet] "1" None None ""
          true (Some Column) (Some (Label "B")) 100 96.

Definition filled_editing_B2 : State :=
  mkState [filled_sheet] "1" (Some "B2") (Some "B2") "42"
          false None None 0 0.

(** Clicks on the interface: a cell is opened and typed in, a sheet is
    added, the first sheet is deleted. *)
Definition sample_clicks : list Event :=
  [CellClick 1 1; CellChange "42"; AddNewSheet 1700000000000; DeleteSheet "1"].

(** Two sheets added within one millisecond, then both delete buttons. *)
Definition sample_double_creation : list Event :=
  [AddNewSheet 1700000000000; AddNewSheet 1700000000000;
   DeleteSheet "1"; DeleteSheet "1700000000000"].

(** ** Vocabulary of the further properties *)

(** The size the grid shows for a column label or a row key:
    [getColumnWidth] or [getRowHeight]. *)
Definition displayedSize (type : ResizeKind) (snap : State) (key : string) : option Z :=
  match type with
  | Column => getColumnWidth snap key
  | Row => getRowHeight snap key
  end.

(** The per-sheet functions that the handlers map over the collection:
    nothing, a cell write at the selected cell under the active id, a
    rename, a resize write under the active id. *)
Inductive sheet_update (st : State) : (Sheet.t → Sheet.t) → Prop :=
| upd_none : sheet_update st (λ s, s)
| upd_write cellId value :
    selectedCell st = Some cellId →
    sheet_update st (writeCell (activeSheetId st) cellId value)
| upd_rename sheetId newName :
    sheet_update st (λ s, if decide (Sheet.id s = sheetId)
                          then Sheet.with_name newName s else s)
| upd_resize type key size :
    minimum type ≤ size →
    sheet_update st (λ s, if decide (Sheet.id s = activeSheetId st)
                          then resizeSheet type key size s else s).

(** Events that leave the collection of sheets as a whole alone. *)
Definition passive_event (e : Event) : Prop :=
  match e with
  | CellClick _ _ | CellChange _ | ResizeStart _ _ _ _ | MouseUp => True
  | _ => False
  end.

Definition is_delete (e : Event) : Prop :=
  match e with DeleteSheet _ => True | _ => False end.

Definition is_add (e : Event) : Prop :=
  match e with AddNewSheet _ => True | _ => False end.

Definition is_tab_click (e : Event) : Prop :=
  match e with SheetTabClick _ => True | _ => False end.

(** [String(n)] for a number that may be [NaN]. *)
Definition number_toString (n : option Z) : string :=
  match n with
  | Some z => JS.toString z
  | None => "NaN"
  end.

(** [getCellId] and [getCellValue] applied to a row that may be [NaN], as
    the formula bar calls them: [NaN + 1] is [NaN]. *)
Definition getCellId_number (row : option Z) (col : Z) : string :=
  JS.interpolate (JS.at_index COLUMNS col)
  +:+ number_toString ((λ r, r + 1) <$> row).

Definition getCellValue_number (snap : State) (row : option Z) (col : Z)
  : option string :=
  (λ s, getCell s (getCellId_number row col)) <$> activeSheet snap.

(** The [value] of the formula-bar input (line 312):
    [editingCell === selectedCell ? cellValue
       : (selectedCell ? getCellValue(parseInt(selectedCell.slice(1)) - 1,
                                      COLUMNS.indexOf(selectedCell[0])) : '')].
    [None] when reading the active sheet throws. *)
Definition formulaBarValue (st : State) : option string :=
  if decide (editingCell st = selectedCell st) then Some (cellValue st)
  else if JS.truthy (selectedCell st)
       then match selectedCell st with
            | Some cellId => getCellValue_number st (rowOf cellId) (colOf cellId)
            | None => Some EmptyString
            end
       else Some EmptyString.

(** The text of the name box (line 307): [selectedCell || 'A1']. *)
Definition nameBox (st : State) : string :=
  if JS.truthy (selectedCell st) then default "A1" (selectedCell st) else "A1".

(** The tab labels, in order. *)
Definition sheetNames (st : State) : list string := Sheet.name <$> sheets st.

(** ** The page hosting the spreadsheet (app/page.tsx, second version) *)

Module Page.

(** [String.prototype.toLowerCase] on ASCII text: the letters A-Z are
    mapped to a-z, every other character is kept. *)
Definition toLowerCase_char (c : ascii) : ascii :=
  let n := nat_of_ascii c in
  if decide (65 ≤ n ≤ 90)%nat then ascii_of_nat (n + 32) else c.

Fixpoint toLowerCase (s : string) : string :=
  match s with
  | String c rest => String (toLowerCase_char c) (toLowerCase rest)
  | EmptyString => EmptyString
  end.

(** [s.includes(sub)]: [sub] occurs in [s] at some position. *)
Fixpoint includes (s sub : string) : bool :=
  String.prefix sub s ||
  match s with
  | String _ rest => includes rest sub
  | EmptyString => false
  end.

(** [s.endsWith(suffix)]: [s] or one of its proper suffixes is [suffix]. *)
Fixpoint endsWith (s suffix : string) : bool :=
  String.eqb s suffix ||
  match s with
  | String _ rest => endsWith rest suffix
  | EmptyString => false
  end.

(** [checkAdminStatus] (lines 65-68). *)
Definition checkAdminStatus (email : string) : bool :=
  includes (toLowerCase email) "admin"
  || endsWith (toLowerCase email) "@admin.excelpro.com".

Inductive ViewMode := spreadsheet | admin.

(** The four [useState] hooks of [Home] and the item 'excelProAuth' of
    [localStorage], [None] when the item is absent. *)
Record State := mkState {
  isAuthenticated : bool;
  userEmail : string;
  isAdmin : bool;
  currentView : ViewMode;
  excelProAuth : option string
}.

(** The values of a fresh mount over a given storage. *)
Definition mounted (storage : option string) : State :=
  mkState false EmptyString false spreadsheet storage.

(** The platform functions the page calls: [JSON.stringify] of the record
    [{ email, loginTime }], and [JSON.parse(text).email], which is [None]
    when the parse throws or the result has no string [email] (reading or
    lower-casing it then throws). *)
Record Platform := mkPlatform {
  stringify : string → string → string;
  parse_email : string → option string
}.

(** The login state set by the mount effect and by [handleLogin]. *)
Definition signedIn (email : string) (storage : option string) : State :=
  let adminStatus := checkAdminStatus email in
  mkState true email adminStatus (if adminStatus then admin else spreadsheet) storage.

(** The mount effect (lines 70-82); [None] when it throws. *)
Definition mountEffect (P : Platform) (st : State) : option State :=
  if JS.truthy (excelProAuth st)
  then match excelProAuth st ≫= parse_email P with
       | Some email => Some (signedIn email (excelProAuth st))
       | None => None
       end
  else Some st.

(** [handleLogin] (lines 84-97); [loginTime] is
    [new Date().toISOString()]. *)
Definition handleLogin (P : Platform) (email password loginTime : string)
    (st : State) : State :=
  signedIn email (Some (stringify P email loginTime)).

(** [handleLogout] (lines 99-105). *)
Definition handleLogout (st : State) : State := mounted None.

(** [setCurrentView], called by the two navigation callbacks. *)
Definition setCurrentView (v : ViewMode) (st : State) : State :=
  mkState (isAuthenticated st) (userEmail st) (isAdmin st) v (excelProAuth st).

(** What [Home] renders (lines 107-127); for the spreadsheet, whether it is
    given the callback that shows its Admin Panel button. *)
Inductive Rendered :=
| LoginView
| AdminPanelView
| SpreadsheetView (adminButton : bool).

Definition render (st : State) : Rendered :=
  if negb (isAuthenticated st) then LoginView
  else match currentView st, isAdmin st with
       | admin, true => AdminPanelView
       | _, _ => SpreadsheetView (isAdmin st)
       end.

Inductive Event :=
| Reload
| Login (email password loginTime : string)
| Logout
| NavigateToAdmin
| NavigateToSpreadsheet.

(** A reload mounts the page anew over the same storage; the two
    navigation events are the callbacks [() => setCurrentView(..)], taken
    here in any state. *)
Definition step (P : Platform) (st : State) (e : Event) : option State :=
  match e with
  | Reload => mountEffect P (mounted (excelProAuth st))
  | Login email password loginTime => Some (handleLogin P email password loginTime st)
  | Logout => Some (handleLogout st)
  | NavigateToAdmin => Some (setCurrentView admin st)
  | NavigateToSpreadsheet => Some (setCurrentView spreadsheet st)
  end.

Fixpoint run (P : Platform) (st : State) (es : list Event) : option State :=
  match es with
  | [] => Some st
  | e :: es' => step P st e ≫= λ st', run P st' es'
  end.

(** The admin flag mirrors the address of the session. *)
Definition flag_mirrors_address (st : State) : Prop :=
  isAdmin st = isAuthenticated st && checkAdminStatus (userEmail st).

(** A stand-in platform and the session it gives: the stored text is the
    address itself. *)
Definition sample_platform : Platform := mkPlatform (λ email _, email) Some.

Definition sample_session : State :=
  signedIn "root@admin.excelpro.com" (Some "root@admin.excelpro.com").

End Page.

(** * Properties *)

(** ** Evaluation on sample inputs *)

Example getCellId_B2 : getCellId 1 1 = "B2".
Proof. reflexivity. Qed.
Example getCellId_Z50 : getCellId 49 25 = "Z50".
Proof. reflexivity. Qed.
Example rowOf_Z50 : rowOf "Z50" = Some 49 ∧ colOf "Z50" = 25.
Proof. split; reflexivity. Qed.
Example parseInt_examples :
  JS.parseInt "  -12px" = Some (-12) ∧ JS.parseInt "0x1F" = Some 31 ∧
  JS.parseInt "abc" = None ∧ JS.parseInt "" = None.
Proof. repeat split; reflexivity. Qed.

(** ** Address round trip *)

Section AddressScheme.

Lemma digit_value_pretty_N_char (d : N) :
  (d < 10)%N → JS.digit_value 10 (pretty_N_char d) = Some (Z.of_N d).
Proof.
  intros Hd.
  assert (d = 0 ∨ d = 1 ∨ d = 2 ∨ d = 3 ∨ d = 4 ∨ d = 5 ∨ d = 6 ∨ d = 7
          ∨ d = 8 ∨ d = 9)%N as Hcases by lia.
  repeat (destruct Hcases as [-> | Hcases]; [reflexivity |]).
  by subst d.
Qed.

(** Reading back the digits that [pretty] emits for [x] continues the
    scan of the rest of the string with accumulator [x]. *)
Lemma parse_digits_pretty_N_go (x : N) (s : string) :
  (0 < x)%N →
  JS.parse_digits 10 (pretty_N_go x s) None
  = JS.parse_digits 10 s (Some (Z.of_N x)).
Proof.
  revert s. induction (N.lt_wf_0 x) as [x _ IH]; intros s Hx.
  rewrite pretty_N_go_step by done.
  assert (Hmod : (x `mod` 10 < 10)%N) by (apply N.mod_lt; lia).
  assert (Hx10 : Z.of_N x = Z.of_N (x `div` 10) * 10 + Z.of_N (x `mod` 10)).
  { rewrite (N.div_mod x 10 ltac:(done)) at 1.
    rewrite N2Z.inj_add, N2Z.inj_mul. lia. }
  destruct (decide (x `div` 10 = 0)%N) as [Hz | Hnz].
  - rewrite Hz, pretty_N_go_0. simpl.
    rewrite digit_value_pretty_N_char by done. simpl.
    rewrite Hx10, Hz. reflexivity.
  - rewrite IH; [| apply N.div_lt; lia | by apply N.neq_0_lt_0]. simpl.
    rewrite digit_value_pretty_N_char by done. simpl.
    by rewrite Hx10.
Qed.

(** The rendering of a positive number starts with a non-zero digit. *)
Lemma pretty_N_go_head (x : N) (s : string) :
  (0 < x)%N →
  ∃ d rest, (0 < d < 10)%N ∧ pretty_N_go x s = String (pretty_N_char d) rest.
Proof.
  revert s. induction (N.lt_wf_0 x) as [x _ IH]; intros s Hx.
  rewrite pretty_N_go_step by done.
  destruct (decide (x `div` 10 = 0)%N) as [Hz | Hnz].
  - rewrite Hz, pretty_N_go_0. exists (x `mod` 10)%N, s. split; [| done].
    assert (x `mod` 10 < 10)%N by (apply N.mod_lt; lia).
    pose proof (N.div_mod x 10 ltac:(done)) as Hdm. rewrite Hz in Hdm.
    rewrite N.mul_0_r, N.add_0_l in Hdm. rewrite <- Hdm. lia.
  - apply IH; [apply N.div_lt; lia | by apply N.neq_0_lt_0].
Qed.

Lemma parseInt_toString_pos (p : positive) :
  JS.parseInt (JS.toString (Z.pos p)) = Some (Z.pos p).
Proof.
  unfold JS.toString, pretty, pretty_Z, pretty, pretty_positive, pretty, pretty_N.
  rewrite decide_False by done.
  pose proof (parse_digits_pretty_N_go (N.pos p) "" eq_refl) as Hparse.
  destruct (pretty_N_go_head (N.pos p) "" eq_refl) as (d & rest & Hd & Heq).
  rewrite Heq in Hparse |- *.
  assert (d = 1 ∨ d = 2 ∨ d = 3 ∨ d = 4 ∨ d = 5 ∨ d = 6 ∨ d = 7
          ∨ d = 8 ∨ d = 9)%N as Hcases by lia.
  unfold JS.parseInt.
  assert (Hgoal : ∀ c, c = pretty_N_char d →
            JS.skip_whitespace (String c rest) = String c rest ∧
            JS.strip_sign (String c rest) = (1, String c rest) ∧
            JS.strip_hex_prefix (String c rest) = (10, String c rest)).
  { intros c ->.
    repeat (destruct Hcases as [-> | Hcases]; [by repeat split |]).
    subst d. by repeat split. }
  destruct (Hgoal _ eq_refl) as (-> & -> & ->).
  rewrite Hparse. reflexivity.
Qed.

(** Rows: any row index from 0 upwards is recovered. *)
Lemma rowOf_getCellId (row col : Z) :
  0 ≤ row → 0 ≤ col < COLUMNS_length →
  rowOf (getCellId row col) = Some row.
Proof.
  intros Hrow Hcol. unfold rowOf, getCellId, JS.at_index.
  rewrite decide_True by lia.
  destruct (COLUMNS !! Z.to_nat col) as [label |] eqn:Hlabel.
  2:{ apply lookup_ge_None in Hlabel. unfold COLUMNS_length in Hcol. lia. }
  assert (∃ c, label = String c EmptyString) as [c ->].
  { unfold COLUMNS in Hlabel. rewrite list_lookup_fmap in Hlabel.
    destruct (seq 0 26 !! Z.to_nat col); simplify_eq/=. eauto. }
  simpl. destruct (row + 1) as [| p | p] eqn:Hp; try lia.
  change ("" +:+ JS.toString (Z.pos p)) with (JS.toString (Z.pos p)).
  rewrite parseInt_toString_pos. simpl. f_equal. lia.
Qed.

Lemma indexOf_from_lookup (arr : list string) (i : nat) (x : string) (k : Z) :
  NoDup arr → arr !! i = Some x → JS.indexOf_from arr x k = k + Z.of_nat i.
Proof.
  intros Hnd. revert i k. induction Hnd as [| y arr Hy Hnd IH]; intros i k Hi.
  - done.
  - destruct i as [| i]; simpl in *.
    + simplify_eq. rewrite decide_True by done. lia.
    + rewrite decide_False.
      * rewrite (IH i (k + 1) Hi). lia.
      * intros ->. apply Hy. eapply list_elem_of_lookup_2. exact Hi.
Qed.

Lemma NoDup_COLUMNS : NoDup COLUMNS.
Proof. apply (bool_decide_unpack _). vm_compute. exact I. Qed.

Lemma colOf_getCellId (row col : Z) :
  0 ≤ col < COLUMNS_length → colOf (getCellId row col) = col.
Proof.
  intros Hcol. unfold colOf, getCellId, JS.at_index.
  rewrite decide_True by lia.
  destruct (COLUMNS !! Z.to_nat col) as [label |] eqn:Hlabel.
  2:{ apply lookup_ge_None in Hlabel. unfold COLUMNS_length in Hcol. lia. }
  assert (∃ c, label = String c EmptyString) as [c ->].
  { unfold COLUMNS in Hlabel. rewrite list_lookup_fmap in Hlabel.
    destruct (seq 0 26 !! Z.to_nat col); simplify_eq/=. eauto. }
  change (JS.char0 _) with (Some (String c EmptyString)).
  unfold JS.indexOf.
  rewrite (indexOf_from_lookup _ _ _ _ NoDup_COLUMNS Hlabel). lia.
Qed.

(** Distinct grid positions have distinct ids. *)
Lemma getCellId_inj (row col row' col' : Z) :
  0 ≤ row → 0 ≤ col < COLUMNS_length →
  0 ≤ row' → 0 ≤ col' < COLUMNS_length →
  getCellId row col = getCellId row' col' → row = row' ∧ col = col'.
Proof.
  intros Hr Hc Hr' Hc' Heq. split.
  - pose proof (rowOf_getCellId row col Hr Hc) as H1.
    pose proof (rowOf_getCellId row' col' Hr' Hc') as H2.
    rewrite Heq in H1. congruence.
  - pose proof (colOf_getCellId row col Hc) as H1.
    pose proof (colOf_getCellId row' col' Hc') as H2.
    rewrite Heq in H1. congruence.
Qed.

Lemma toString_nonempty (n : Z) : JS.toString n ≠ EmptyString.
Proof.
  unfold JS.toString, pretty, pretty_Z. destruct n as [| p | p]; [done | |].
  - unfold pretty, pretty_positive, pretty, pretty_N.
    rewrite decide_False by done.
    by destruct (pretty_N_go_head (N.pos p) "" eq_refl) as (d & rest & _ & ->).
  - done.
Qed.

(** A cell id is never the empty string. *)
Lemma getCellId_nonempty (row col : Z) : getCellId row col ≠ EmptyString.
Proof.
  unfold getCellId. intros Heq.
  destruct (JS.interpolate (JS.at_index COLUMNS col)); [| done].
  by apply (toString_nonempty (row + 1)).
Qed.

End AddressScheme.

(** C2. Address round trip: for every row in [0,50) and col in [0,26), the
    parse applied to a selected cell id ([parseInt] of the characters after
    the first, minus 1; [indexOf] of the first character in [COLUMNS])
    recovers the indices that [getCellId] encoded. *)
Theorem address_round_trip (row col : Z) :
  0 ≤ row < 50 → 0 ≤ col < 26 →
  rowOf (getCellId row col) = Some row ∧ colOf (getCellId row col) = col.
Proof.
  intros Hrow Hcol. split.
  - apply rowOf_getCellId; [lia | done].
  - by apply colOf_getCellId.
Qed.

Lemma address_round_trip_witness :
  rowOf (getCellId 49 25) = Some 49 ∧ colOf (getCellId 49 25) = 25.
Proof. apply (address_round_trip 49 25); lia. Defined.

(** ** The sheet store *)

Section Store.

Implicit Types (l : list Sheet.t) (s : Sheet.t) (st : State).

Lemma setCell_fmap sheetId cellId value l :
  setCell sheetId cellId value l = writeCell sheetId cellId value <$> l.
Proof. reflexivity. Qed.

Lemma writeCell_id sheetId cellId value s :
  Sheet.id (writeCell sheetId cellId value s) = Sheet.id s.
Proof. unfold writeCell. by case_decide. Qed.

Lemma setCell_ids sheetId cellId value l :
  Sheet.id <$> setCell sheetId cellId value l = Sheet.id <$> l.
Proof.
  rewrite setCell_fmap, <- list_fmap_compose. apply list_fmap_ext.
  intros _ s _. apply writeCell_id.
Qed.

Lemma getCell_insert_eq s cellId value :
  getCell (Sheet.with_data (<[cellId := value]> (Sheet.data s)) s) cellId = value.
Proof. unfold getCell. simpl. by rewrite lookup_insert_eq. Qed.

Lemma getCell_writeCell_target sheetId cellId value s :
  Sheet.id s = sheetId → getCell (writeCell sheetId cellId value s) cellId = value.
Proof.
  intros Hid. unfold writeCell. rewrite decide_True by done.
  apply getCell_insert_eq.
Qed.

Lemma getCell_writeCell_other sheetId cellId value s cellId' :
  cellId' ≠ cellId →
  getCell (writeCell sheetId cellId value s) cellId' = getCell s cellId'.
Proof.
  intros Hne. unfold writeCell, getCell. case_decide; [| done].
  simpl. by rewrite lookup_insert_ne.
Qed.

(** [find] commutes with a map that the predicate does not see. *)
Lemma find_fmap {A} (p : A → bool) (f : A → A) (arr : list A) :
  (∀ x, p (f x) = p x) → JS.find p (f <$> arr) = f <$> JS.find p arr.
Proof.
  intros Hp. induction arr as [| x arr IH]; [done |].
  simpl. rewrite Hp. by destruct (p x).
Qed.

Lemma find_elem_of {A} (p : A → bool) (arr : list A) (x : A) :
  x ∈ arr → p x = true → ∃ y, JS.find p arr = Some y ∧ p y = true.
Proof.
  intros Hx Hpx. induction Hx as [x arr | x y arr Hx IH]; simpl.
  - rewrite Hpx. eauto.
  - destruct (p y) eqn:Hy; eauto.
Qed.

(** With invariant (b) the active sheet is the one [find] returns. *)
Lemma activeSheet_has_active st :
  has_active st →
  ∃ s, activeSheet st = Some s ∧ Sheet.id s = activeSheetId st.
Proof.
  unfold has_active, sheetIds, activeSheet. intros Hin.
  apply list_elem_of_fmap in Hin as (s & Hid & Hs).
  destruct (find_elem_of (λ s, bool_decide (Sheet.id s = activeSheetId st))
              (sheets st) s Hs) as (y & -> & Hy).
  { by apply bool_decide_eq_true. }
  exists y. split; [done |]. by apply bool_decide_eq_true in Hy.
Qed.

(** Writing a cell does not change which sheet is the active one. *)
Lemma activeSheet_setCell st st' sheetId cellId value :
  activeSheetId st' = activeSheetId st →
  sheets st' = setCell sheetId cellId value (sheets st) →
  activeSheet st' = writeCell sheetId cellId value <$> activeSheet st.
Proof.
  intros Hact Hsheets. unfold activeSheet. rewrite Hact, Hsheets, setCell_fmap.
  rewrite find_fmap.
  2:{ intros s. by rewrite writeCell_id. }
  destruct (JS.find _ (sheets st)); [done |].
  unfold JS.at_index. simpl. rewrite list_lookup_fmap.
  by destruct (sheets st !! 0%nat).
Qed.

Lemma has_active_setCell st st' sheetId cellId value :
  activeSheetId st' = activeSheetId st →
  sheets st' = setCell sheetId cellId value (sheets st) →
  has_active st → has_active st'.
Proof.
  unfold has_active, sheetIds. intros -> ->. by rewrite setCell_ids.
Qed.

(** After a write to the active sheet, the active sheet holds the value. *)
Lemma getCell_activeSheet_setCell st st' cellId value :
  has_active st →
  activeSheetId st' = activeSheetId st →
  sheets st' = setCell (activeSheetId st) cellId value (sheets st) →
  ∃ s', activeSheet st' = Some s' ∧ getCell s' cellId = value.
Proof.
  intros Hact Hid Hsheets.
  destruct (activeSheet_has_active st Hact) as (s & Hs & Hsid).
  rewrite (activeSheet_setCell st st' _ _ _ Hid Hsheets), Hs. simpl.
  eexists; split; [done |]. by apply getCell_writeCell_target.
Qed.

End Store.

(** C6. Frame of the commit write: [setCell] on a target sheet id changes at
    most the entry for [cellId] in the cell map of the sheets carrying that
    id.  Position by position, the record after the write has the same id,
    name and geometry; a sheet with another id is unchanged as a whole, so
    [getCell] on it returns what it returned before; in the target sheet
    every other cell is unchanged and [cellId] holds the value. *)
Theorem setCell_frame (l : list Sheet.t) (sheetId cellId value : string) :
  length (setCell sheetId cellId value l) = length l ∧
  ∀ (i : nat) (s : Sheet.t), l !! i = Some s →
    ∃ s', setCell sheetId cellId value l !! i = Some s' ∧
      Sheet.id s' = Sheet.id s ∧ Sheet.name s' = Sheet.name s ∧
      Sheet.columnWidths s' = Sheet.columnWidths s ∧
      Sheet.rowHeights s' = Sheet.rowHeights s ∧
      (Sheet.id s ≠ sheetId → s' = s ∧ ∀ c, getCell s' c = getCell s c) ∧
      (∀ c, c ≠ cellId →
         Sheet.data s' !! c = Sheet.data s !! c ∧ getCell s' c = getCell s c) ∧
      (Sheet.id s = sheetId →
         Sheet.data s' = <[cellId := value]> (Sheet.data s) ∧
         getCell s' cellId = value).
Proof.
  split; [apply length_fmap |].
  intros i s Hi. exists (writeCell sheetId cellId value s).
  rewrite setCell_fmap, list_lookup_fmap, Hi. split; [done |].
  unfold writeCell. case_decide as Hid; simpl.
  - split_and!; try done.
    + intros c Hc. unfold getCell. simpl. by rewrite lookup_insert_ne.
    + intros _. split; [done | apply getCell_insert_eq].
  - split_and!; done.
Qed.

(** Sheet isolation on the two-sheet example: a write to sheet "1" at "A1"
    leaves sheet "2" as it was. *)
Example setCell_isolation :
  let l := [Sheet.mk "1" "Sheet1" ∅ None None; Sheet.mk "2" "Sheet2" ∅ None None] in
  (λ s, getCell s "A1") <$> setCell "1" "A1" "x" l = ["x"; ""].
Proof. reflexivity. Qed.

(** ** Selection and editing *)

Section Selection.

Implicit Types (st snap cur : State).

Lemma truthy_Some (s : string) : s ≠ EmptyString → JS.truthy (Some s) = true.
Proof. intros Hs. unfold JS.truthy. by rewrite bool_decide_eq_false_2. Qed.

Lemma handleCellBlur_Editing snap cur cellId draft :
  Editing snap cellId draft → cellId ≠ EmptyString →
  handleCellBlur snap cur
  = setEditingCell None
      (setSheets (setCell (activeSheetId snap) cellId draft) cur).
Proof.
  intros (Hsel & Hed & Hval) Hne. unfold handleCellBlur.
  rewrite Hsel, Hed, Hval, truthy_Some by done.
  by rewrite bool_decide_eq_true_2.
Qed.

Lemma handleCellClick_Done snap cur row col s :
  activeSheet snap = Some s →
  handleCellClick snap row col cur
  = Done (setCellValue (getCell s (getCellId row col))
            (setEditingCell (Some (getCellId row col))
               (setSelectedCell (Some (getCellId row col)) cur))).
Proof.
  intros Hs. unfold handleCellClick, bind, pure, eval, getCellValue.
  by rewrite Hs.
Qed.

Lemma COLUMNS_length_eq : COLUMNS_length = 26.
Proof. reflexivity. Qed.

Lemma directional_keys_inv key :
  key ∈ directional_keys →
  key = "Enter" ∨ key = "Tab" ∨ key = "ArrowDown" ∨ key = "ArrowUp"
  ∨ key = "ArrowRight" ∨ key = "ArrowLeft".
Proof.
  unfold directional_keys. rewrite !elem_of_cons, elem_of_nil. tauto.
Qed.

Lemma destination_Some key row col r' c' :
  destination key row col = Some (r', c') →
  key = "Enter" ∧ r' = row + 1 ∧ c' = col
  ∨ key = "ArrowDown" ∧ r' = row + 1 ∧ c' = col
  ∨ key = "Tab" ∧ r' = row ∧ c' = col + 1
  ∨ key = "ArrowRight" ∧ r' = row ∧ c' = col + 1
  ∨ key = "ArrowUp" ∧ r' = row - 1 ∧ c' = col
  ∨ key = "ArrowLeft" ∧ r' = row ∧ c' = col - 1.
Proof.
  unfold destination.
  intros Hdest. repeat case_decide; simplify_eq; tauto.
Qed.

(** Every directional key runs the commit first; what follows is either
    nothing or a click on some cell. *)
Lemma handleKeyDown_commit_first snap key row col :
  key ∈ directional_keys →
  ∃ next, handleKeyDown snap key row col = (pure (handleCellBlur snap) >>> next) ∧
          (next = pure (λ cur, cur) ∨ ∃ r c, next = handleCellClick snap r c).
Proof.
  intros Hkey. apply directional_keys_inv in Hkey.
  destruct_or!; subst key; unfold handleKeyDown; simpl;
    case_decide; eexists; (split; [reflexivity | eauto]).
Qed.

(** Within the grid, the guards of [handleKeyDown] decide exactly whether
    the destination is in the grid. *)
Lemma handleKeyDown_destination snap key row col r' c' :
  0 ≤ row < ROWS → 0 ≤ col < COLUMNS_length →
  destination key row col = Some (r', c') →
  handleKeyDown snap key row col
  = (pure (handleCellBlur snap) >>>
     if in_grid r' c' then handleCellClick snap r' c' else pure (λ cur, cur)).
Proof.
  intros Hrow Hcol Hdest. apply destination_Some in Hdest.
  unfold in_grid, handleKeyDown.
  rewrite COLUMNS_length_eq in *. unfold ROWS in *.
  destruct_or!; destruct_and!; subst; simpl;
    case_decide;
    first [ rewrite bool_decide_eq_true_2 by lia; reflexivity
          | rewrite bool_decide_eq_false_2 by lia; reflexivity ].
Qed.

End Selection.

(** What a commit followed by [next] does to an editing session, when
    [next] is nothing or a click. *)
Lemma commit_then_next st cellId draft (next : Handler) :
  Editing st cellId draft → cellId ≠ EmptyString → has_active st →
  next = pure (λ cur, cur) ∨ (∃ r c, next = handleCellClick st r c) →
  ∃ st', (pure (handleCellBlur st) >>> next) st = Done st' ∧
         activeSheetId st' = activeSheetId st ∧
         sheets st' = setCell (activeSheetId st) cellId draft (sheets st).
Proof.
  intros Hed Hne Hact Hnext.
  destruct (activeSheet_has_active st Hact) as (s & Hs & _).
  unfold bind, pure at 1. rewrite (handleCellBlur_Editing _ _ _ _ Hed Hne).
  destruct Hnext as [-> | (r & c & ->)].
  - eexists. split; [reflexivity |]. done.
  - rewrite (handleCellClick_Done _ _ _ _ _ Hs). eexists. split; [reflexivity |]. done.
Qed.

(** C1. Commit on blur.  In state Editing(cellId, draft) a keystroke in the
    cell input changes the draft and nothing else: the sheets, and so the
    stored value of [cellId], are as before and the session is still open
    on [cellId].  A commit (blur, Enter, Tab or an arrow key) writes the
    draft at [cellId] in the active sheet, and [getCell] then returns it. *)
Theorem commit_on_blur (st : State) (cellId draft : string) :
  Editing st cellId draft → cellId ≠ EmptyString → has_active st →
  (∀ value, ∃ st',
     step st (CellChange value) = Done st' ∧
     st' = setCellValue value st ∧ sheets st' = sheets st ∧
     activeSheet st' = activeSheet st ∧ Editing st' cellId value) ∧
  (∀ e, commit_event e → ∃ st' s',
     step st e = Done st' ∧
     activeSheetId st' = activeSheetId st ∧
     sheets st' = setCell (activeSheetId st) cellId draft (sheets st) ∧
     activeSheet st' = Some s' ∧ getCell s' cellId = draft).
Proof.
  intros Hed Hne Hact. split.
  - intros value. exists (setCellValue value st).
    destruct Hed as (Hsel & Hedit & _).
    unfold step. simpl. rewrite decide_True by done. done.
  - intros e He.
    assert (∃ st', handler st e st = Done st' ∧
              activeSheetId st' = activeSheetId st ∧
              sheets st' = setCell (activeSheetId st) cellId draft (sheets st))
      as (st' & Hrun & Hid & Hsheets).
    { destruct He as [| key row col Hkey]; simpl.
      - unfold pure. rewrite (handleCellBlur_Editing _ _ _ _ Hed Hne).
        eexists. split; [reflexivity |]. done.
      - destruct (handleKeyDown_commit_first st key row col Hkey)
          as (next & -> & Hnext).
        by apply commit_then_next. }
    destruct (getCell_activeSheet_setCell st st' cellId draft Hact Hid Hsheets)
      as (s' & Hs' & Hget).
    exists st', s'. unfold step. rewrite Hrun, decide_True by done. done.
Qed.

Lemma commit_on_blur_witness :
  ∃ st' s', step editing_B2 (KeyDown "Tab" 1 1) = Done st' ∧
    activeSheetId st' = "1" ∧
    sheets st' = setCell "1" "B2" "42" (sheets editing_B2) ∧
    activeSheet st' = Some s' ∧ getCell s' "B2" = "42".
Proof.
  assert (Hed : Editing editing_B2 "B2" "42") by (repeat split; reflexivity).
  assert (Hne : "B2" ≠ EmptyString) by discriminate.
  assert (Hact : has_active editing_B2) by (apply list_elem_of_here).
  apply (proj2 (commit_on_blur editing_B2 "B2" "42" Hed Hne Hact)).
  apply commit_key. unfold directional_keys. apply elem_of_cons. right.
  apply list_elem_of_here.
Defined.

(** The example of the specification: select "B2", type "42"; the store
    does not hold the value until one of the commits happens. *)
Example B2_typed_then_committed :
  let store r := match r with
                 | Done st => (λ s, getCell s "B2") <$> activeSheet st
                 | Threw _ => None
                 end in
  run initialState [CellClick 1 1; CellChange "4"; CellChange "42"] = Done editing_B2 ∧
  store (run initialState [CellClick 1 1; CellChange "4"; CellChange "42"]) = Some "" ∧
  Forall (λ e, store (run editing_B2 [e]) = Some "42")
    [CellBlur; KeyDown "Enter" 1 1; KeyDown "Tab" 1 1; KeyDown "ArrowDown" 1 1;
     KeyDown "ArrowUp" 1 1; KeyDown "ArrowLeft" 1 1; KeyDown "ArrowRight" 1 1].
Proof. split_and!; [reflexivity | reflexivity |]. repeat constructor. Qed.

(** C4. Directional move.  A directional key pressed while editing the cell
    at (row, col) commits the draft first.  If the destination is within
    the grid it becomes the editing cell, its draft being its stored value;
    otherwise the current cell stays selected, with its input closed. *)
Theorem directional_move (st : State) (key : string) (row col : Z)
    (draft : string) (row' col' : Z) :
  0 ≤ row < 50 → 0 ≤ col < 26 →
  Editing st (getCellId row col) draft → has_active st →
  destination key row col = Some (row', col') →
  ∃ st' s',
    step st (KeyDown key row col) = Done st' ∧
    activeSheetId st' = activeSheetId st ∧
    sheets st' = setCell (activeSheetId st) (getCellId row col) draft (sheets st) ∧
    activeSheet st' = Some s' ∧ getCell s' (getCellId row col) = draft ∧
    if in_grid row' col'
    then Editing st' (getCellId row' col') (getCell s' (getCellId row' col'))
    else Selected st' (getCellId row col).
Proof.
  intros Hrow Hcol Hed Hact Hdest.
  pose proof (getCellId_nonempty row col) as Hne.
  destruct (activeSheet_has_active st Hact) as (s & Hs & Hsid).
  assert (Hmoved : (row', col') ≠ (row, col)).
  { apply destination_Some in Hdest. intros [= -> ->]. lia. }
  pose (committed := setEditingCell None
          (setSheets (setCell (activeSheetId st) (getCellId row col) draft) st)).
  assert (Hcs : activeSheet committed
                = Some (writeCell (activeSheetId st) (getCellId row col) draft s)).
  { rewrite (activeSheet_setCell st committed (activeSheetId st)
               (getCellId row col) draft eq_refl eq_refl).
    by rewrite Hs. }
  unfold step. simpl.
  rewrite (handleKeyDown_destination st key row col row' col') by done.
  unfold bind, pure at 1. rewrite (handleCellBlur_Editing _ _ _ _ Hed Hne).
  fold committed.
  destruct (in_grid row' col') eqn:Hgrid.
  - apply bool_decide_eq_true in Hgrid as [Hr' Hc'].
    rewrite (handleCellClick_Done _ _ _ _ _ Hs). simpl.
    rewrite decide_True by done.
    eexists _, _. split_and!; try reflexivity.
    + exact Hcs.
    + by apply getCell_writeCell_target.
    + repeat split. simpl. symmetry. apply getCell_writeCell_other.
      intros Heq. apply Hmoved.
      apply getCellId_inj in Heq as [-> ->]; unfold ROWS in *;
        rewrite ?COLUMNS_length_eq; (done || lia).
  - unfold pure. simpl. rewrite decide_True by done.
    eexists _, _. split_and!; try reflexivity.
    + exact Hcs.
    + by apply getCell_writeCell_target.
    + destruct Hed as (Hsel & _). by split.
Qed.

Lemma directional_move_witness :
  ∃ st' s',
    step editing_A1 (KeyDown "ArrowUp" 0 0) = Done st' ∧
    activeSheetId st' = "1" ∧
    sheets st' = setCell "1" "A1" "x" (sheets editing_A1) ∧
    activeSheet st' = Some s' ∧ getCell s' "A1" = "x" ∧
    Selected st' "A1".
Proof.
  apply (directional_move editing_A1 "ArrowUp" 0 0 "x" (-1) 0).
  - lia.
  - lia.
  - repeat split; reflexivity.
  - apply list_elem_of_here.
  - reflexivity.
Defined.

(** Navigation clamp: Up and Left from "A1" and Down and Right from "Z50"
    (and Enter, Tab there) commit and leave the same cell selected; a move
    inside the grid opens the neighbour. *)
Example navigation_clamp :
  let selection r := match r with
                     | Done st => Some (selectedCell st, editingCell st,
                                        (λ s, map_to_list (Sheet.data s)) <$> sheets st)
                     | Threw _ => None
                     end in
  Forall (λ key, selection (step editing_A1 (KeyDown key 0 0))
                 = Some (Some "A1", None, [[("A1", "x")]]))
         ["ArrowUp"; "ArrowLeft"] ∧
  Forall (λ key, selection (step editing_Z50 (KeyDown key 49 25))
                 = Some (Some "Z50", None, [[("Z50", "x")]]))
         ["ArrowDown"; "ArrowRight"; "Enter"; "Tab"] ∧
  selection (step editing_A1 (KeyDown "ArrowDown" 0 0))
  = Some (Some "A2", Some "A2", [[("A1", "x")]]).
Proof. split_and!; [repeat constructor .. | reflexivity]. Qed.

Section WritePaths.

Implicit Types (st : State).

Lemma run_cons st e es st' :
  step st e = Done st' → run st (e :: es) = run st' es.
Proof. intros Hstep. simpl. by rewrite Hstep. Qed.

Lemma step_CellChange st value :
  step st (CellChange value) = Done (setCellValue value st).
Proof. unfold step. simpl. by rewrite decide_True. Qed.

Lemma step_CellBlur st cellId draft :
  Editing st cellId draft → cellId ≠ EmptyString →
  step st CellBlur
  = Done (setEditingCell None
            (setSheets (setCell (activeSheetId st) cellId draft) st)).
Proof.
  intros Hed Hne. unfold step, handler, pure.
  rewrite (handleCellBlur_Editing _ _ _ _ Hed Hne). simpl.
  by rewrite decide_True.
Qed.

Lemma step_FormulaBarChange st cellId value :
  selectedCell st = Some cellId → cellId ≠ EmptyString →
  step st (FormulaBarChange value)
  = Done (setSheets (setCell (activeSheetId st) cellId value)
            (setCellValue value st)).
Proof.
  intros Hsel Hne. unfold step, handler, pure, formulaBarChange.
  rewrite Hsel, truthy_Some by done. simpl. by rewrite decide_True.
Qed.

Lemma step_SheetTabClick_Editing st cellId draft target :
  Editing st cellId draft → cellId ≠ EmptyString →
  step st (SheetTabClick target)
  = Done (let st' := setActiveSheetId target
                       (setSheets (setCell (activeSheetId st) cellId draft) st) in
          if decide (target = activeSheetId st) then st' else clearSelection st').
Proof.
  intros (Hsel & Hed & Hval) Hne. unfold step, handler, pure, sheetTabClick.
  rewrite Hsel, Hed, Hval, truthy_Some by done.
  rewrite bool_decide_eq_true_2 by done. simpl.
  by destruct (decide (target = activeSheetId st)).
Qed.

End WritePaths.

(** C8. Sheet switch while editing.  A click on the tab of another sheet in
    state Editing(cellId, draft) writes the draft at [cellId] into the
    sheets carrying the old active id, makes the clicked sheet active, and
    leaves the selection Idle: no selected cell, no editing cell, empty
    draft. *)
Theorem sheet_switch_flushes (st : State) (cellId draft target : string) :
  Editing st cellId draft → cellId ≠ EmptyString →
  target ≠ activeSheetId st →
  ∃ st',
    step st (SheetTabClick target) = Done st' ∧
    sheets st' = setCell (activeSheetId st) cellId draft (sheets st) ∧
    (∀ s', s' ∈ sheets st' → Sheet.id s' = activeSheetId st →
           getCell s' cellId = draft) ∧
    (has_active st → ∃ s', s' ∈ sheets st' ∧ Sheet.id s' = activeSheetId st) ∧
    activeSheetId st' = target ∧
    Idle st'.
Proof.
  intros Hed Hne Htarget.
  rewrite (step_SheetTabClick_Editing _ _ _ _ Hed Hne).
  rewrite decide_False by done.
  eexists. split; [reflexivity |]. simpl. split_and!; try done.
  - intros s' Hs' Hid. rewrite setCell_fmap in Hs'.
    apply list_elem_of_fmap in Hs' as (s & -> & Hs).
    rewrite writeCell_id in Hid. by apply getCell_writeCell_target.
  - unfold has_active, sheetIds. rewrite <- (setCell_ids (activeSheetId st) cellId draft).
    intros Hact. apply list_elem_of_fmap in Hact as (s' & Hid & Hs'). eauto.
Qed.

Lemma sheet_switch_flushes_witness :
  ∃ st',
    step two_sheets_editing_C3 (SheetTabClick "1700000000000") = Done st' ∧
    sheets st' = setCell "1" "C3" "draft" (sheets two_sheets_editing_C3) ∧
    (∀ s', s' ∈ sheets st' → Sheet.id s' = "1" → getCell s' "C3" = "draft") ∧
    (has_active two_sheets_editing_C3 → ∃ s', s' ∈ sheets st' ∧ Sheet.id s' = "1") ∧
    activeSheetId st' = "1700000000000" ∧
    Idle st'.
Proof.
  apply (sheet_switch_flushes two_sheets_editing_C3 "C3" "draft" "1700000000000").
  - repeat split; reflexivity.
  - discriminate.
  - discriminate.
Defined.

(** A click on the tab of the sheet that is already active is not a switch:
    the draft is flushed and the editing session stays open. *)
Lemma sheet_tab_click_same_sheet (st : State) (cellId draft : string) :
  Editing st cellId draft → cellId ≠ EmptyString →
  ∃ st', step st (SheetTabClick (activeSheetId st)) = Done st' ∧
         sheets st' = setCell (activeSheetId st) cellId draft (sheets st) ∧
         Editing st' cellId draft.
Proof.
  intros Hed Hne. rewrite (step_SheetTabClick_Editing _ _ _ _ Hed Hne).
  rewrite decide_True by done. eexists. split; [reflexivity |]. done.
Qed.

(** The other two ways the active sheet changes do not flush: creating a
    sheet while an input is open activates the new sheet, clears the
    selection and leaves the draft unwritten. *)
Lemma add_sheet_discards_draft (st : State) (cellId draft : string) (now : Z) :
  Editing st cellId draft → JS.toString now ≠ activeSheetId st →
  ∃ st', step st (AddNewSheet now) = Done st' ∧
         Idle st' ∧ activeSheetId st' = JS.toString now ∧
         ∃ newSheet, sheets st' = sheets st ++ [newSheet].
Proof.
  intros _ Hnew. unfold step, handler, pure, addNewSheet. simpl.
  rewrite decide_False by done. eexists. split; [reflexivity |].
  simpl. split_and!; try done. eauto.
Qed.

(** C9. Formula-bar writes.  With a cell selected, a formula-bar keystroke
    writes its value at that cell of the active sheet at once, whatever the
    editing state; it also replaces the draft.  When the grid input and the
    formula bar both write the same cell, the store holds the last write:
    the formula-bar value after an uncommitted or a committed grid edit,
    the grid draft when its commit comes last. *)
Theorem formula_bar_last_write_wins (st : State) (cellId : string) :
  selectedCell st = Some cellId → cellId ≠ EmptyString → has_active st →
  (∀ value, ∃ st' s',
     step st (FormulaBarChange value) = Done st' ∧
     sheets st' = setCell (activeSheetId st) cellId value (sheets st) ∧
     activeSheetId st' = activeSheetId st ∧
     selectedCell st' = selectedCell st ∧ editingCell st' = editingCell st ∧
     cellValue st' = value ∧
     activeSheet st' = Some s' ∧ getCell s' cellId = value) ∧
  (editingCell st = Some cellId → ∀ draft value,
     (∃ st' s', run st [CellChange draft; FormulaBarChange value] = Done st' ∧
                sheets st' = setCell (activeSheetId st) cellId value (sheets st) ∧
                activeSheet st' = Some s' ∧ getCell s' cellId = value) ∧
     (∃ st' s', run st [CellChange draft; CellBlur; FormulaBarChange value] = Done st' ∧
                activeSheet st' = Some s' ∧ getCell s' cellId = value) ∧
     (∃ st' s', run st [FormulaBarChange value; CellChange draft; CellBlur] = Done st' ∧
                activeSheet st' = Some s' ∧ getCell s' cellId = draft)).
Proof.
  intros Hsel Hne Hact. split.
  - intros value.
    pose (st' := setSheets (setCell (activeSheetId st) cellId value)
                   (setCellValue value st)).
    destruct (getCell_activeSheet_setCell st st' cellId value Hact eq_refl eq_refl)
      as (s' & Hs' & Hget).
    exists st', s'. by rewrite (step_FormulaBarChange _ _ _ Hsel Hne).
  - intros Hedit draft value. split_and!.
    + pose (st1 := setCellValue draft st).
      pose (st2 := setSheets (setCell (activeSheetId st1) cellId value)
                     (setCellValue value st1)).
      destruct (getCell_activeSheet_setCell st st2 cellId value Hact eq_refl eq_refl)
        as (s' & Hs' & Hget).
      exists st2, s'.
      rewrite (run_cons _ _ _ st1 (step_CellChange _ _)).
      by rewrite (run_cons _ _ _ st2 (step_FormulaBarChange st1 cellId value Hsel Hne)).
    + pose (st1 := setCellValue draft st).
      pose (st2 := setEditingCell None
                     (setSheets (setCell (activeSheetId st1) cellId draft) st1)).
      pose (st3 := setSheets (setCell (activeSheetId st2) cellId value)
                     (setCellValue value st2)).
      assert (Hact2 : has_active st2).
      { by apply (has_active_setCell st st2 (activeSheetId st) cellId draft). }
      destruct (getCell_activeSheet_setCell st2 st3 cellId value Hact2 eq_refl eq_refl)
        as (s' & Hs' & Hget).
      exists st3, s'.
      rewrite (run_cons _ _ _ st1 (step_CellChange _ _)).
      rewrite (run_cons _ _ _ st2 (step_CellBlur st1 cellId draft ltac:(done) Hne)).
      by rewrite (run_cons _ _ _ st3 (step_FormulaBarChange st2 cellId value Hsel Hne)).
    + pose (st1 := setSheets (setCell (activeSheetId st) cellId value)
                     (setCellValue value st)).
      pose (st2 := setCellValue draft st1).
      pose (st3 := setEditingCell None
                     (setSheets (setCell (activeSheetId st2) cellId draft) st2)).
      assert (Hact2 : has_active st2).
      { by apply (has_active_setCell st st2 (activeSheetId st) cellId value). }
      destruct (getCell_activeSheet_setCell st2 st3 cellId draft Hact2 eq_refl eq_refl)
        as (s' & Hs' & Hget).
      exists st3, s'.
      rewrite (run_cons _ _ _ st1 (step_FormulaBarChange st cellId value Hsel Hne)).
      rewrite (run_cons _ _ _ st2 (step_CellChange _ _)).
      by rewrite (run_cons _ _ _ st3 (step_CellBlur st2 cellId draft ltac:(done) Hne)).
Qed.

Lemma formula_bar_last_write_wins_witness :
  ∃ st' s',
    run editing_C3 [CellChange "grid"; FormulaBarChange "bar"] = Done st' ∧
    sheets st' = setCell "1" "C3" "bar" (sheets editing_C3) ∧
    activeSheet st' = Some s' ∧ getCell s' "C3" = "bar".
Proof.
  assert (Hsel : selectedCell editing_C3 = Some "C3") by reflexivity.
  assert (Hne : "C3" ≠ EmptyString) by discriminate.
  assert (Hact : has_active editing_C3) by apply list_elem_of_here.
  exact (proj1 (proj2 (formula_bar_last_write_wins editing_C3 "C3" Hsel Hne Hact)
                  eq_refl "grid" "bar")).
Defined.

(** The race of the specification, evaluated: grid edit of "C3" left open,
    then a formula-bar keystroke. *)
Example formula_bar_race_C3 :
  match run initialState [CellClick 2 2; CellChange "grid"; FormulaBarChange "bar"] with
  | Done st => (λ s, getCell s "C3") <$> activeSheet st = Some "bar"
               ∧ editingCell st = Some "C3" ∧ cellValue st = "bar"
  | Threw _ => False
  end.
Proof. by split_and!. Qed.

(** ** The sheet collection *)

Section Collection.

Implicit Types (l : list Sheet.t) (st : State).

Lemma remaining_absent sheetId l :
  sheetId ∉ (Sheet.id <$> l) → remaining sheetId l = l.
Proof.
  unfold remaining. induction l as [| s l IH]; intros Hnotin; [done |].
  rewrite fmap_cons, not_elem_of_cons in Hnotin. destruct Hnotin as [Hne Hnotin].
  rewrite filter_cons_True by done. by rewrite IH.
Qed.

Lemma remaining_ids sheetId l :
  Sheet.id <$> remaining sheetId l = filter (λ i, i ≠ sheetId) (Sheet.id <$> l).
Proof.
  unfold remaining. induction l as [| s l IH]; [done |].
  rewrite fmap_cons. destruct (decide (Sheet.id s = sheetId)) as [Heq | Hne].
  - rewrite !filter_cons_False by (intros ?; done). done.
  - rewrite !filter_cons_True by done. by rewrite fmap_cons, IH.
Qed.

(** With distinct ids, deleting a present id removes exactly one sheet. *)
Lemma remaining_length sheetId l :
  NoDup (Sheet.id <$> l) → sheetId ∈ (Sheet.id <$> l) →
  S (length (remaining sheetId l)) = length l.
Proof.
  unfold remaining. induction l as [| s l IH]; intros Hnd Hin.
  - by apply elem_of_nil in Hin.
  - rewrite fmap_cons in Hnd, Hin. apply NoDup_cons in Hnd as [Hs Hnd].
    destruct (decide (Sheet.id s = sheetId)) as [Heq | Hne].
    + rewrite filter_cons_False by (intros ?; done).
      rewrite Heq in Hs. fold (remaining sheetId l).
      by rewrite remaining_absent.
    + rewrite filter_cons_True by done. simpl. f_equal. apply IH; [done |].
      apply elem_of_cons in Hin as [? | ?]; [congruence | done].
Qed.

Lemma remaining_nonempty sheetId l :
  l ≠ [] → NoDup (Sheet.id <$> l) → length l ≠ 1%nat →
  remaining sheetId l ≠ [].
Proof.
  intros Hne Hnd Hlen Hrem.
  destruct (decide (sheetId ∈ (Sheet.id <$> l))) as [Hin | Hnotin].
  - pose proof (remaining_length sheetId l Hnd Hin) as Hl.
    rewrite Hrem in Hl. simpl in Hl. lia.
  - rewrite remaining_absent in Hrem by done. done.
Qed.

Lemma setSheets_same st : setSheets (λ _, sheets st) st = st.
Proof. by destruct st. Qed.

Lemma step_DeleteSheet_last st sheetId :
  length (sheets st) = 1%nat → step st (DeleteSheet sheetId) = Done st.
Proof.
  intros Hlen. unfold step, handler, deleteSheet.
  rewrite decide_True by done. unfold pure. by rewrite decide_True.
Qed.

Lemma step_DeleteSheet_inactive st sheetId :
  length (sheets st) ≠ 1%nat → activeSheetId st ≠ sheetId →
  step st (DeleteSheet sheetId)
  = Done (setSheets (λ _, remaining sheetId (sheets st)) st).
Proof.
  intros Hlen Hact. unfold step, handler, deleteSheet.
  rewrite decide_False by done. rewrite (decide_False (P := activeSheetId st = sheetId)) by done.
  unfold bind, pure. simpl. by rewrite decide_True.
Qed.

Lemma step_DeleteSheet_active st sheetId s rest :
  length (sheets st) ≠ 1%nat → activeSheetId st = sheetId →
  remaining sheetId (sheets st) = s :: rest →
  step st (DeleteSheet sheetId)
  = Done (clearSelection
            (setActiveSheetId (Sheet.id s)
               (setSheets (λ _, s :: rest) st))).
Proof.
  intros Hlen Hact Hrem. unfold step, handler, deleteSheet.
  rewrite decide_False by done. rewrite (decide_True (P := activeSheetId st = sheetId)) by done.
  fold (remaining sheetId (sheets st)). rewrite Hrem.
  unfold bind, pure, eval, JS.at_index. simpl.
  rewrite decide_False; [done |].
  assert (Hs : s ∈ remaining sheetId (sheets st)) by (rewrite Hrem; left).
  unfold remaining in Hs. apply list_elem_of_filter in Hs as [Hs _]. congruence.
Qed.

Lemma step_RenameSheet st sheetId newName :
  step st (RenameSheet sheetId newName) = Done (renameSheet sheetId newName st).
Proof. unfold step, handler, pure. simpl. by rewrite decide_True. Qed.

Lemma renameSheet_ids st sheetId newName :
  sheetIds (renameSheet sheetId newName st) = sheetIds st.
Proof.
  unfold sheetIds. simpl. rewrite <- list_fmap_compose.
  apply list_fmap_ext. intros _ s _. simpl. by case_decide.
Qed.

Lemma renameSheet_absent st sheetId newName :
  sheetId ∉ sheetIds st → renameSheet sheetId newName st = st.
Proof.
  intros Hnotin. rewrite <- (setSheets_same st) at 2.
  unfold renameSheet, setSheets. f_equal.
  etrans; [| apply list_fmap_id]. apply list_fmap_ext.
  intros i s Hs. rewrite decide_False; [done |].
  intros Hid. apply Hnotin. unfold sheetIds. rewrite <- Hid.
  apply list_elem_of_fmap_2. by eapply list_elem_of_lookup_2.
Qed.

End Collection.

(** C7. Last-sheet guard and deletion.  With exactly one sheet,
    [deleteSheet] changes nothing.  Otherwise the sheets with that id are
    filtered out; deleting a sheet that is not active leaves [activeSheetId]
    as it was, and deleting the active one makes the first of the remaining
    sheets active.  In a collection with at least one sheet and distinct ids
    a sheet always remains, and deleting a present id removes exactly one
    sheet. *)
Theorem deleteSheet_guard (st : State) (sheetId : string) :
  (length (sheets st) = 1%nat → step st (DeleteSheet sheetId) = Done st) ∧
  (length (sheets st) ≠ 1%nat →
     (activeSheetId st ≠ sheetId →
        ∃ st', step st (DeleteSheet sheetId) = Done st' ∧
               sheets st' = remaining sheetId (sheets st) ∧
               activeSheetId st' = activeSheetId st) ∧
     (activeSheetId st = sheetId → ∀ s rest,
        remaining sheetId (sheets st) = s :: rest →
        ∃ st', step st (DeleteSheet sheetId) = Done st' ∧
               sheets st' = s :: rest ∧
               activeSheetId st' = Sheet.id s) ∧
     (sheets st ≠ [] → unique_ids st →
        (∃ s rest, remaining sheetId (sheets st) = s :: rest) ∧
        (sheetId ∉ (Sheet.id <$> remaining sheetId (sheets st))) ∧
        (sheetId ∈ sheetIds st →
           S (length (remaining sheetId (sheets st))) = length (sheets st)))).
Proof.
  split; [apply step_DeleteSheet_last |].
  intros Hlen. split_and!.
  - intros Hact. rewrite step_DeleteSheet_inactive by done.
    eexists. split; [reflexivity |]. done.
  - intros Hact s rest Hrem.
    rewrite (step_DeleteSheet_active st sheetId s rest) by done.
    eexists. split; [reflexivity |]. done.
  - intros Hne Hnd. split_and!.
    + pose proof (remaining_nonempty sheetId (sheets st) Hne Hnd Hlen) as Hrem.
      destruct (remaining sheetId (sheets st)) as [| s rest]; [done | eauto].
    + rewrite remaining_ids. intros Hin.
      apply list_elem_of_filter in Hin as [Hin _]. done.
    + intros Hin. by apply remaining_length.
Qed.

Lemma deleteSheet_guard_witness :
  ∃ st', step two_sheets (DeleteSheet "1700000000000") = Done st' ∧
         sheets st' = [Sheet.mk "1" "Sheet1" ∅ None None] ∧
         activeSheetId st' = "1".
Proof.
  assert (Hlen : length (sheets two_sheets) ≠ 1%nat) by (simpl; lia).
  exact (proj1 (proj2 (proj2 (deleteSheet_guard two_sheets "1700000000000") Hlen))
           eq_refl (Sheet.mk "1" "Sheet1" ∅ None None) [] eq_refl).
Defined.

(** C10. Unknown ids.  For a sheet id that no sheet carries, [renameSheet]
    leaves the state as it is, and so does [deleteSheet] when
    [activeSheetId] names a sheet of the collection: nothing is removed and
    the active sheet is the same; no error is raised. *)
Theorem unknown_id_noop (st : State) (sheetId : string) :
  sheetId ∉ sheetIds st →
  (∀ newName, step st (RenameSheet sheetId newName) = Done st) ∧
  (has_active st → step st (DeleteSheet sheetId) = Done st).
Proof.
  intros Hnotin. split.
  - intros newName. rewrite step_RenameSheet. f_equal.
    by apply renameSheet_absent.
  - intros Hact.
    destruct (decide (length (sheets st) = 1%nat)) as [Hlen | Hlen].
    + by apply step_DeleteSheet_last.
    + rewrite step_DeleteSheet_inactive; [| done |].
      * rewrite remaining_absent by done. by rewrite setSheets_same.
      * intros Heq. apply Hnotin. by rewrite <- Heq.
Qed.

Lemma unknown_id_noop_witness :
  (∀ newName, step two_sheets (RenameSheet "7" newName) = Done two_sheets) ∧
  (has_active two_sheets → step two_sheets (DeleteSheet "7") = Done two_sheets).
Proof.
  apply (unknown_id_noop two_sheets "7").
  unfold sheetIds. simpl. rewrite !not_elem_of_cons. split_and!; try discriminate.
  apply not_elem_of_nil.
Defined.

(** ** States the interface reaches *)

Section Interface.
Implicit Types (st snap cur : State).

Lemma handleCellBlur_fields snap cur :
  sheetIds (handleCellBlur snap cur) = sheetIds cur ∧
  activeSheetId (handleCellBlur snap cur) = activeSheetId cur ∧
  selectedCell (handleCellBlur snap cur) = selectedCell cur ∧
  editingCell (handleCellBlur snap cur) = None.
Proof.
  unfold handleCellBlur, sheetIds. destruct (selectedCell snap); [| done].
  destruct (JS.truthy _ && bool_decide _); simpl; [| done].
  by rewrite setCell_ids.
Qed.

Lemma handleCellClick_fields snap row col cur st' :
  handleCellClick snap row col cur = Done st' →
  sheetIds st' = sheetIds cur ∧ activeSheetId st' = activeSheetId cur ∧
  selectedCell st' = Some (getCellId row col) ∧
  editingCell st' = Some (getCellId row col).
Proof.
  unfold handleCellClick, bind, pure, eval.
  destruct (getCellValue snap row col); [| done]. by intros [= <-].
Qed.

Lemma handleKeyDown_fields snap key row col cur st' :
  in_grid row col = true →
  handleKeyDown snap key row col cur = Done st' →
  sheetIds st' = sheetIds cur ∧ activeSheetId st' = activeSheetId cur ∧
  (st' = cur ∨
   selectedCell st' = selectedCell cur ∧ editingCell st' = None ∨
   ∃ r c, in_grid r c = true ∧ selectedCell st' = Some (getCellId r c) ∧
          editingCell st' = Some (getCellId r c)).
Proof.
  intros Hgrid. apply bool_decide_eq_true in Hgrid.
  rewrite COLUMNS_length_eq in Hgrid. unfold ROWS in Hgrid.
  destruct (handleCellBlur_fields snap cur) as (Hids & Hact & Hsel & Hed).
  unfold handleKeyDown.
  repeat case_decide; unfold bind, pure at 1; intros Hrun.
  all: try (injection Hrun as <-; split_and!; [done | done | by auto]).
  all: apply handleCellClick_fields in Hrun as (-> & -> & Hs & He).
  all: split_and!; [done | done |]; right; right; eexists _, _;
       (split; [| split; [exact Hs | exact He]]).
  all: apply bool_decide_eq_true; rewrite COLUMNS_length_eq in *; unfold ROWS in *; lia.
Qed.

Lemma ui_inv_ext st st1 :
  sheetIds st1 = sheetIds st → activeSheetId st1 = activeSheetId st →
  selectedCell st1 = selectedCell st →
  editingCell st1 = editingCell st ∨ editingCell st1 = None →
  has_active st ∧ selection_ok st → has_active st1 ∧ selection_ok st1.
Proof.
  unfold has_active, selection_ok. intros -> -> -> Hed (Hact & Hsel & Hedit).
  split_and!; try done.
  intros c Hc. destruct Hed as [Heq | Heq]; rewrite Heq in Hc; [auto | done].
Qed.

Lemma ui_inv_clearSelection st1 :
  has_active st1 → has_active (clearSelection st1) ∧ selection_ok (clearSelection st1).
Proof. intros Hact. split; [done |]. by split. Qed.

Lemma handleMouseMove_fields snap x y cur :
  sheetIds (handleMouseMove snap x y cur) = sheetIds cur ∧
  activeSheetId (handleMouseMove snap x y cur) = activeSheetId cur ∧
  selectedCell (handleMouseMove snap x y cur) = selectedCell cur ∧
  editingCell (handleMouseMove snap x y cur) = editingCell cur.
Proof.
  unfold handleMouseMove.
  destruct (isResizing snap); [| done].
  destruct (resizingType snap) as [type |]; [| done].
  destruct (resizingIndex snap) as [index |]; [| done].
  assert (∀ cw rh,
            sheetIds (updateSheetDimensions snap cw rh cur) = sheetIds cur) as Hids.
  { intros cw rh. unfold sheetIds. simpl. rewrite <- list_fmap_compose.
    apply list_fmap_ext. intros _ s _. simpl. by case_decide. }
  destruct type; by rewrite Hids.
Qed.

Lemma formulaBarChange_fields snap value cur :
  sheetIds (formulaBarChange snap value cur) = sheetIds cur ∧
  activeSheetId (formulaBarChange snap value cur) = activeSheetId cur ∧
  selectedCell (formulaBarChange snap value cur) = selectedCell cur ∧
  editingCell (formulaBarChange snap value cur) = editingCell cur.
Proof.
  unfold formulaBarChange, sheetIds. destruct (selectedCell snap); [| done].
  destruct (JS.truthy _); simpl; [| done]. by rewrite setCell_ids.
Qed.

Lemma sheetTabClick_fields snap sheetId cur :
  sheetIds (sheetTabClick snap sheetId cur) = sheetIds cur ∧
  activeSheetId (sheetTabClick snap sheetId cur) = sheetId ∧
  selectedCell (sheetTabClick snap sheetId cur) = selectedCell cur ∧
  editingCell (sheetTabClick snap sheetId cur) = editingCell cur.
Proof.
  unfold sheetTabClick, sheetIds. destruct (selectedCell snap); [| done].
  destruct (JS.truthy _ && bool_decide _); simpl; [| done].
  by rewrite setCell_ids.
Qed.

Lemma handleResizeStart_fields snap type index x y cur st' :
  handleResizeStart snap type index x y cur = Done st' →
  sheets st' = sheets cur ∧ activeSheetId st' = activeSheetId cur ∧
  selectedCell st' = selectedCell cur ∧ editingCell st' = editingCell cur.
Proof.
  unfold handleResizeStart, bind, pure, eval.
  destruct type; [destruct (getColumnWidth _ _) | destruct (getRowHeight _ _)];
    intros [= <-]; done.
Qed.

Lemma deleteSheet_has_active st sheetId st' :
  has_active st → deleteSheet st sheetId st = Done st' →
  has_active st' ∧ selectedCell st' = selectedCell st ∧
  editingCell st' = editingCell st.
Proof.
  intros Hact. unfold deleteSheet. case_decide.
  { by intros [= <-]. }
  unfold bind, pure at 1. case_decide as Heq.
  - unfold eval, JS.at_index. simpl.
    destruct (filter _ (sheets st)) as [| s rest] eqn:Hrem; [done |].
    intros [= <-]. split; [| done]. unfold has_active, sheetIds. simpl. left.
  - intros [= <-]. split; [| done]. unfold has_active, sheetIds in *. simpl.
    apply list_elem_of_fmap in Hact as (s & Hid & Hs).
    apply list_elem_of_fmap. exists s. split; [done |].
    apply list_elem_of_filter. split; [congruence | done].
Qed.

(** One offered event keeps the active sheet in the collection and the
    selection on a cell of the grid. *)
Lemma ui_step_inv st e st' :
  has_active st ∧ selection_ok st → offered st e → step st e = Done st' →
  has_active st' ∧ selection_ok st'.
Proof.
  intros Hinv Hoff. unfold step.
  destruct (handler st e st) as [st1 |] eqn:Hrun; [| done].
  intros [= <-].
  assert (Hinv1 : has_active st1 ∧ selection_ok st1).
  2:{ case_decide; [done |]. apply ui_inv_clearSelection. by destruct Hinv1. }
  destruct e; simpl in Hrun, Hoff; unfold pure in Hrun.
  - apply handleCellClick_fields in Hrun as (Hids & Hact & Hsel & Hed).
    destruct Hinv as [Hin _]. unfold has_active, selection_ok.
    rewrite Hids, Hact, Hsel, Hed. split_and!; [done | | done].
    intros c [= <-]. eauto.
  - injection Hrun as <-. by apply (ui_inv_ext st); auto.
  - injection Hrun as <-.
    destruct (handleCellBlur_fields st st) as (Hids & Hact & Hsel & Hed).
    by apply (ui_inv_ext st); auto.
  - destruct Hoff as [Hgrid _].
    apply (handleKeyDown_fields _ _ _ _ _ _ Hgrid) in Hrun
      as (Hids & Hact & [-> | [[Hsel Hed] | (r & c & Hrc & Hsel & Hed)]]).
    + done.
    + by apply (ui_inv_ext st); auto.
    + destruct Hinv as [Hin _]. unfold has_active, selection_ok.
      rewrite Hids, Hact, Hsel, Hed. split_and!; [done | | done].
      intros c' [= <-]. eauto.
  - injection Hrun as <-.
    destruct (formulaBarChange_fields st value st) as (? & ? & ? & ?).
    by apply (ui_inv_ext st); auto.
  - injection Hrun as <-. destruct Hinv as [_ Hsel]. split; [| done].
    unfold has_active, sheetIds, addNewSheet. simpl. rewrite fmap_app.
    apply elem_of_app. right. left.
  - destruct Hinv as [Hact Hsel].
    apply (deleteSheet_has_active _ _ _ Hact) in Hrun as (Hact' & Hs & He).
    split; [done |]. unfold selection_ok. by rewrite Hs, He.
  - injection Hrun as <-. apply (ui_inv_ext st); auto.
    apply renameSheet_ids.
  - injection Hrun as <-. destruct Hinv as [_ Hsel].
    destruct (sheetTabClick_fields st sheetId st) as (Hids & Hact & Hs & He).
    unfold has_active, selection_ok. rewrite Hids, Hact, Hs, He. by split.
  - apply handleResizeStart_fields in Hrun as (Hsh & Hact & Hs & He).
    apply (ui_inv_ext st); auto. unfold sheetIds. by rewrite Hsh.
  - injection Hrun as <-.
    destruct (handleMouseMove_fields st clientX clientY st) as (? & ? & ? & ?).
    by apply (ui_inv_ext st); auto.
  - injection Hrun as <-. by apply (ui_inv_ext st); auto.
Qed.

(** In every state the interface reaches, [activeSheetId] names a sheet,
    the selected cell is a cell of the grid, and an open input sits on the
    selected cell. *)
Lemma ui_reachable_inv st :
  ui_reachable st → has_active st ∧ selection_ok st.
Proof.
  induction 1 as [| st e st' _ IH Hoff Hstep].
  - split; [apply list_elem_of_here |]. by split.
  - by eapply ui_step_inv.
Qed.

(** The hypotheses under which the editing properties are stated hold in
    every such state. *)
Lemma ui_reachable_Editing st cellId :
  ui_reachable st → editingCell st = Some cellId →
  Editing st cellId (cellValue st) ∧ cellId ≠ EmptyString ∧ has_active st.
Proof.
  intros Hreach Hed.
  destruct (ui_reachable_inv st Hreach) as (Hact & Hsel & Hedit).
  pose proof (Hedit _ Hed) as Hs.
  destruct (Hsel _ Hs) as (row & col & _ & ->).
  split_and!; [by repeat split | apply getCellId_nonempty | done].
Qed.

End Interface.

(** ** Sheet ids over sequences of collection operations *)

Section SheetIds.

Implicit Types (st : State) (es : list Event) (l : list Z).

Lemma clock_readings_app es1 es2 :
  clock_readings (es1 ++ es2) = clock_readings es1 ++ clock_readings es2.
Proof.
  induction es1 as [| e es1 IH]; [done |].
  destruct e; simpl; by rewrite ?IH.
Qed.

(** A reading that was never rendered into an id gives a fresh id: the
    decimal rendering is injective. *)
Lemma toString_fresh l st now :
  ids_among l st → now ∉ l → JS.toString now ∉ sheetIds st.
Proof.
  unfold ids_among. intros Hids Hnotin Hin. rewrite Forall_forall in Hids.
  apply Hids, list_elem_of_fmap in Hin as (n & Heq & Hn).
  unfold JS.toString in Heq. apply (inj pretty) in Heq. by subst n.
Qed.

Lemma ids_among_app l l' st : ids_among l st → ids_among (l ++ l') st.
Proof.
  unfold ids_among. intros Hids. eapply Forall_impl; [exact Hids |].
  intros i Hi. rewrite fmap_app. apply elem_of_app. by left.
Qed.


Lemma step_AddNewSheet st now :
  ∃ st', step st (AddNewSheet now) = Done st' ∧
         sheetIds st' = sheetIds st ++ [JS.toString now] ∧
         activeSheetId st' = JS.toString now.
Proof.
  unfold step, handler, pure, addNewSheet.
  eexists. split; [reflexivity |].
  case_decide; unfold sheetIds; simpl; by rewrite fmap_app.
Qed.

(** Creation with a reading not used before keeps the invariants. *)
Lemma step_create_inv st l now :
  wf_collection st → ids_among l st → now ∉ l →
  ∃ st', step st (AddNewSheet now) = Done st' ∧
         sheetIds st' = sheetIds st ++ [JS.toString now] ∧
         wf_collection st' ∧ ids_among (l ++ [now]) st'.
Proof.
  intros (Hne & Hact & Hnd) Hids Hnotin.
  pose proof (toString_fresh l st now Hids Hnotin) as Hfresh.
  destruct (step_AddNewSheet st now) as (st' & Hstep & Hids' & Hact').
  exists st'. split_and!; try done.
  - unfold wf_collection, has_active, unique_ids. rewrite Hids', Hact'.
    split_and!.
    + intros Hnil. apply (f_equal (fmap Sheet.id)) in Hnil.
      fold (sheetIds st') in Hnil. rewrite Hids' in Hnil.
      by destruct (sheetIds st).
    + apply elem_of_app. right. apply list_elem_of_here.
    + apply NoDup_app. split_and!; [done | | apply NoDup_singleton].
      intros i Hi Hin. apply list_elem_of_singleton in Hin. by subst i.
  - unfold ids_among. rewrite Hids'. apply Forall_app. split.
    + by apply ids_among_app.
    + apply Forall_singleton. rewrite fmap_app. apply elem_of_app. right.
      apply list_elem_of_here.
Qed.

(** Deletion never throws on a well-formed collection and keeps the
    invariants. *)
Lemma step_delete_inv st l sheetId :
  wf_collection st → ids_among l st →
  ∃ st', step st (DeleteSheet sheetId) = Done st' ∧
         wf_collection st' ∧ ids_among l st'.
Proof.
  intros Hwf Hids. pose proof Hwf as (Hne & Hact & Hnd).
  destruct (decide (length (sheets st) = 1%nat)) as [Hlen | Hlen].
  { exists st. by rewrite step_DeleteSheet_last. }
  pose proof (remaining_nonempty sheetId (sheets st) Hne Hnd Hlen) as Hrem.
  assert (Hsub : ∀ st', sheets st' = remaining sheetId (sheets st) →
                   sheetIds st' = filter (λ i, i ≠ sheetId) (sheetIds st)).
  { intros st' Hs. unfold sheetIds. by rewrite Hs, remaining_ids. }
  assert (Hamong : ∀ st', sheets st' = remaining sheetId (sheets st) →
                     ids_among l st').
  { intros st' Hs. unfold ids_among in *.
    rewrite (Hsub _ Hs). rewrite Forall_forall in Hids |- *.
    intros i Hi. apply list_elem_of_filter in Hi as [_ Hi]. by apply Hids. }
  assert (Hwf' : ∀ st', sheets st' = remaining sheetId (sheets st) →
                   activeSheetId st' ∈ sheetIds st' → wf_collection st').
  { intros st' Hs Hin. split_and!; [by rewrite Hs | done |].
    unfold unique_ids. rewrite (Hsub _ Hs). by apply NoDup_filter. }
  destruct (decide (activeSheetId st = sheetId)) as [Heq | Hneq].
  - destruct (remaining sheetId (sheets st)) as [| s rest] eqn:Hr; [done |].
    rewrite (step_DeleteSheet_active st sheetId s rest) by done.
    eexists. split; [reflexivity |]. split.
    + apply Hwf'; [done |]. unfold sheetIds. simpl. left.
    + by apply Hamong.
  - rewrite step_DeleteSheet_inactive by done.
    eexists. split; [reflexivity |]. split.
    + apply Hwf'; [done |].
      rewrite (Hsub (setSheets (λ _, remaining sheetId (sheets st)) st) eq_refl).
      simpl. by apply list_elem_of_filter.
    + by apply Hamong.
Qed.





Lemma run_app st es1 es2 :
  run st (es1 ++ es2)
  = match run st es1 with Done st' => run st' es2 | Threw st' => Threw st' end.
Proof.
  revert st. induction es1 as [| e es1 IH]; intros st; [done |].
  simpl. destruct (step st e); [apply IH | done].
Qed.

Lemma clock_readings_elem_of es now :
  now ∈ clock_readings es → ∃ pre post, es = pre ++ AddNewSheet now :: post.
Proof.
  induction es as [| e es IH]; simpl; [by intros ?%elem_of_nil |].
  assert (Htail : now ∈ clock_readings es →
            ∃ pre post, e :: es = pre ++ AddNewSheet now :: post).
  { intros Hin. destruct (IH Hin) as (pre & post & ->). by exists (e :: pre), post. }
  destruct e; try exact Htail.
  intros [-> | Hin]%elem_of_cons; [by exists [], es | by apply Htail].
Qed.

End SheetIds.



(** A clock that advances from one creation to the next and shows more
    than 1 is one such clock. *)
Lemma advancing_clock_distinct (es : list Event) :
  StronglySorted Z.lt (1 :: clock_readings es) → readings_distinct es.
Proof.
  unfold readings_distinct. generalize (1 :: clock_readings es).
  induction 1 as [| x l _ IH Hx]; [constructor |].
  apply NoDup_cons. split; [| done].
  intros Hin. rewrite Forall_forall in Hx. specialize (Hx x Hin). lia.
Qed.

(** The condition on the readings cannot be weakened: whenever every
    creation of a sequence generates an id that no earlier collection held,
    the readings are distinct from one another and from 1. *)
Lemma fresh_ids_need_distinct_readings (es : list Event) :
  (∀ pre now post, es = pre ++ AddNewSheet now :: post →
     ∀ earlier, earlier `prefix_of` pre →
       ∃ st0, run initialState earlier = Done st0 ∧
              JS.toString now ∉ sheetIds st0) →
  readings_distinct es.
Proof.
  unfold readings_distinct.
  induction es as [| e es IH] using rev_ind; intros Hfresh.
  { apply NoDup_singleton. }
  assert (Hes : NoDup (1 :: clock_readings es)).
  { apply IH. intros pre now post ->. apply (Hfresh pre now (post ++ [e])).
    by rewrite <- app_assoc. }
  rewrite clock_readings_app.
  destruct e; simpl; rewrite ?app_nil_r; try exact Hes.
  rewrite app_comm_cons. apply NoDup_app. split_and!; [done | | apply NoDup_singleton].
  intros x Hx ->%list_elem_of_singleton.
  apply elem_of_cons in Hx as [-> | Hx].
  - destruct (Hfresh es 1 [] eq_refl [] (prefix_nil es)) as (st0 & [= <-] & Hnotin).
    apply Hnotin. left.
  - destruct (clock_readings_elem_of es now Hx) as (pre & post & Hpre).
    destruct (Hfresh es now [] eq_refl (pre ++ [AddNewSheet now]))
      as (st0 & Hrun & Hnotin).
    { exists post. by rewrite Hpre, <- app_assoc. }
    rewrite run_app in Hrun.
    destruct (run initialState pre) as [st1 |]; [| done].
    destruct (step_AddNewSheet st1 now) as (st' & Hstep & Hids & _).
    rewrite (run_cons _ _ _ _ Hstep) in Hrun. injection Hrun as <-.
    apply Hnotin. rewrite Hids. apply elem_of_app. right. left.
Qed.


(** With two sheets under one id, deleting both is the one way
    [deleteSheet] throws: [newSheets[0]] is [undefined]. *)
Example deleteSheet_throws_on_shared_id :
  match run initialState [AddNewSheet 1700000000000; AddNewSheet 1700000000000;
                          DeleteSheet "1"; DeleteSheet "1700000000000"] with
  | Done _ => False
  | Threw st => sheets st = []
  end.
Proof. vm_compute. reflexivity. Qed.

(** ** Resize protocol *)

Section Resize.

Implicit Types (st snap cur : State) (s : Sheet.t) (l : list Sheet.t).

Lemma newSize_ge type startSize startPos currentPos :
  minimum type ≤ newSize type startSize startPos currentPos.
Proof. unfold newSize, minimum. destruct type; lia. Qed.

Lemma spread_merge_singleton old key size :
  spread_merge old {[ key := size ]} = <[key := size]> (default ∅ old).
Proof. unfold spread_merge. by rewrite insert_union_singleton_l. Qed.

Lemma handleMouseMove_Dragging snap cur type index clientX clientY :
  Dragging snap type index →
  handleMouseMove snap clientX clientY cur
  = setSheets (λ prevSheets,
      (λ s, if decide (Sheet.id s = activeSheetId snap)
            then resizeSheet type (index_key index)
                   (newSize type (resizeStartSize snap) (resizeStartPos snap)
                      (pointer type clientX clientY)) s
            else s) <$> prevSheets) cur.
Proof.
  intros (Hres & Htype & Hidx). unfold handleMouseMove.
  rewrite Hres, Htype, Hidx. by destruct type.
Qed.

Lemma resizeSheet_overrides type key size s :
  overrides type (resizeSheet type key size s)
  = Some (<[key := size]> (default ∅ (overrides type s))) ∧
  overrides (other_kind type) (resizeSheet type key size s)
  = overrides (other_kind type) s ∧
  Sheet.id (resizeSheet type key size s) = Sheet.id s ∧
  Sheet.name (resizeSheet type key size s) = Sheet.name s ∧
  Sheet.data (resizeSheet type key size s) = Sheet.data s.
Proof. destruct type; simpl; by rewrite spread_merge_singleton. Qed.

Lemma resizeSheet_geometry_ok type key size s :
  minimum type ≤ size → sheet_geometry_ok s →
  sheet_geometry_ok (resizeSheet type key size s).
Proof.
  intros Hsize Hok type' m Hm.
  destruct (resizeSheet_overrides type key size s) as (Hsame & Hother & _).
  destruct (decide (type' = type)) as [-> | Hne].
  - rewrite Hsame in Hm. injection Hm as <-.
    apply map_Forall_insert_2; [done |].
    destruct (overrides type s) as [m0 |] eqn:Hm0; simpl.
    + by apply (Hok type).
    + apply map_Forall_empty.
  - assert (type' = other_kind type) as -> by (destruct type, type'; done).
    rewrite Hother in Hm. by apply (Hok (other_kind type)).
Qed.

End Resize.

(** *** The floor on stored sizes is an invariant of every event *)

Section GeometryInvariant.

Implicit Types (st snap cur : State) (s : Sheet.t) (l : list Sheet.t).

Lemma writeCell_geometry_ok sheetId cellId value s :
  sheet_geometry_ok s → sheet_geometry_ok (writeCell sheetId cellId value s).
Proof.
  intros Hok type m Hm. apply (Hok type). rewrite <- Hm.
  unfold writeCell. case_decide; by destruct type.
Qed.

Lemma setCell_geometry_ok sheetId cellId value l :
  Forall sheet_geometry_ok l →
  Forall sheet_geometry_ok (setCell sheetId cellId value l).
Proof.
  intros Hok. rewrite setCell_fmap, Forall_fmap.
  eapply Forall_impl; [exact Hok |]. intros s Hs.
  by apply writeCell_geometry_ok.
Qed.

Lemma handleCellBlur_sheets snap cur :
  sheets (handleCellBlur snap cur) = sheets cur ∨
  ∃ cellId value,
    sheets (handleCellBlur snap cur)
    = setCell (activeSheetId snap) cellId value (sheets cur).
Proof.
  unfold handleCellBlur. destruct (selectedCell snap) as [cellId |]; [| by left].
  destruct (JS.truthy _ && bool_decide _); [right; eauto | by left].
Qed.

Lemma handleCellClick_sheets snap row col cur st' :
  handleCellClick snap row col cur = Done st' → sheets st' = sheets cur.
Proof.
  unfold handleCellClick, bind, pure, eval.
  destruct (getCellValue snap row col); [| done]. by intros [= <-].
Qed.

Lemma handleKeyDown_sheets snap key row col cur st' :
  handleKeyDown snap key row col cur = Done st' →
  sheets st' = sheets (handleCellBlur snap cur) ∨ sheets st' = sheets cur.
Proof.
  unfold handleKeyDown.
  repeat case_decide; unfold bind, pure at 1; intros Hrun;
    first [ apply handleCellClick_sheets in Hrun; by left
          | injection Hrun as <-; by (left + right) ].
Qed.

Lemma handleResizeStart_sheets snap type index x y cur st' :
  handleResizeStart snap type index x y cur = Done st' → sheets st' = sheets cur.
Proof.
  unfold handleResizeStart, bind, pure, eval.
  destruct type; [destruct (getColumnWidth _ _) | destruct (getRowHeight _ _)];
    intros [= <-]; done.
Qed.

Lemma handleMouseMove_geometry_ok snap x y cur :
  geometry_ok cur → geometry_ok (handleMouseMove snap x y cur).
Proof.
  intros Hok. unfold handleMouseMove.
  destruct (isResizing snap) eqn:Hres; [| done].
  destruct (resizingType snap) as [type |] eqn:Htype; [| done].
  destruct (resizingIndex snap) as [index |] eqn:Hidx; [| done].
  pose proof (handleMouseMove_Dragging snap cur type index x y
                (conj Hres (conj Htype Hidx))) as Hmove.
  unfold handleMouseMove in Hmove. rewrite Hres, Htype, Hidx in Hmove.
  rewrite Hmove. unfold geometry_ok. simpl. rewrite Forall_fmap.
  eapply Forall_impl; [exact Hok |]. intros s Hs. simpl.
  case_decide; [| done].
  apply resizeSheet_geometry_ok; [apply newSize_ge | done].
Qed.

Lemma addNewSheet_geometry_ok st now :
  geometry_ok st → geometry_ok (addNewSheet st now st).
Proof.
  intros Hok. unfold geometry_ok, addNewSheet. simpl.
  apply Forall_app. split; [done |]. apply Forall_singleton.
  intros type m Hm. destruct type; injection Hm as <-; apply map_Forall_empty.
Qed.

Lemma renameSheet_geometry_ok sheetId newName st :
  geometry_ok st → geometry_ok (renameSheet sheetId newName st).
Proof.
  intros Hok. unfold geometry_ok, renameSheet. simpl. rewrite Forall_fmap.
  eapply Forall_impl; [exact Hok |]. intros s Hs. simpl.
  case_decide; [| done]. intros type m Hm. apply (Hs type).
  rewrite <- Hm. by destruct type.
Qed.

Lemma deleteSheet_geometry_ok st sheetId st' :
  geometry_ok st → deleteSheet st sheetId st = Done st' → geometry_ok st'.
Proof.
  intros Hok. unfold deleteSheet. case_decide.
  { by intros [= <-]. }
  assert (Hrem : Forall sheet_geometry_ok
                   (filter (λ s, Sheet.id s ≠ sheetId) (sheets st))).
  { unfold geometry_ok in Hok. rewrite Forall_forall in Hok |- *. intros s Hs.
    apply list_elem_of_filter in Hs as [_ Hs]. by apply Hok. }
  unfold bind, pure at 1. case_decide.
  - unfold eval. destruct (JS.at_index _ 0); [| done]. by intros [= <-].
  - by intros [= <-].
Qed.

(** One event keeps every stored size at or above its minimum. *)
Lemma step_geometry_ok st e st' :
  geometry_ok st → step st e = Done st' → geometry_ok st'.
Proof.
  intros Hok. unfold step.
  destruct (handler st e st) as [st1 |] eqn:Hrun; [| done].
  intros [= <-].
  assert (Hok1 : geometry_ok st1); [| by case_decide].
  destruct e; simpl in Hrun; unfold pure in Hrun.
  - apply handleCellClick_sheets in Hrun. unfold geometry_ok. by rewrite Hrun.
  - by injection Hrun as <-.
  - injection Hrun as <-. unfold geometry_ok.
    destruct (handleCellBlur_sheets st st) as [-> | (c & v & ->)];
      [done | by apply setCell_geometry_ok].
  - apply handleKeyDown_sheets in Hrun. unfold geometry_ok.
    destruct Hrun as [-> | ->]; [| done].
    destruct (handleCellBlur_sheets st st) as [-> | (c & v & ->)];
      [done | by apply setCell_geometry_ok].
  - injection Hrun as <-. unfold geometry_ok, formulaBarChange.
    destruct (selectedCell st) as [c |]; [| done].
    destruct (JS.truthy _); [| done]. by apply setCell_geometry_ok.
  - injection Hrun as <-. by apply addNewSheet_geometry_ok.
  - by eapply deleteSheet_geometry_ok.
  - injection Hrun as <-. by apply renameSheet_geometry_ok.
  - injection Hrun as <-. unfold geometry_ok, sheetTabClick.
    destruct (selectedCell st) as [c |]; [| done].
    destruct (JS.truthy _ && bool_decide _); [| done].
    by apply setCell_geometry_ok.
  - apply handleResizeStart_sheets in Hrun. unfold geometry_ok. by rewrite Hrun.
  - injection Hrun as <-. by apply handleMouseMove_geometry_ok.
  - by injection Hrun as <-.
Qed.

Lemma reachable_geometry_ok st : reachable st → geometry_ok st.
Proof.
  induction 1 as [| st e st' _ IH Hstep].
  - apply Forall_singleton. intros type m Hm. by destruct type.
  - by eapply step_geometry_ok.
Qed.

End GeometryInvariant.

(** C5 (as amended).  While a drag is in progress, a pointer move writes
    max(minimum, startSize + (coordinate - startCoordinate)) under the
    dragged key of the active sheet and changes no other sheet and no other
    kind of override; the written size is at least the minimum, and is
    exactly the minimum whenever the requested size
    startSize + (coordinate - startCoordinate) is at or below it.  In every
    reachable state each stored column width is at least 20 and each stored
    row height at least 15.  There is no maximum: every size from the
    minimum upwards is written for a suitable coordinate. *)
Theorem resize_floor :
  (∀ st type index clientX clientY,
     Dragging st type index →
     let requested :=
       resizeStartSize st + (pointer type clientX clientY - resizeStartPos st) in
     let size := Z.max (minimum type) requested in
     ∃ st', step st (MouseMove clientX clientY) = Done st' ∧
       length (sheets st') = length (sheets st) ∧
       (∀ (i : nat) s, sheets st !! i = Some s →
          ∃ s', sheets st' !! i = Some s' ∧
            (Sheet.id s ≠ activeSheetId st → s' = s) ∧
            (Sheet.id s = activeSheetId st →
               overrides type s'
               = Some (<[index_key index := size]> (default ∅ (overrides type s))) ∧
               overrides (other_kind type) s' = overrides (other_kind type) s)) ∧
       minimum type ≤ size ∧
       (requested ≤ minimum type → size = minimum type)) ∧
  (∀ st, reachable st →
     ∀ s, s ∈ sheets st →
       (∀ widths col width, Sheet.columnWidths s = Some widths →
          widths !! col = Some width → 20 ≤ width) ∧
       (∀ heights row height, Sheet.rowHeights s = Some heights →
          heights !! row = Some height → 15 ≤ height)) ∧
  (∀ type startSize startPos target,
     minimum type ≤ target →
     newSize type startSize startPos (startPos + (target - startSize)) = target).
Proof.
  split_and!.
  - intros st type index x y Hdrag requested size.
    exists (handleMouseMove st x y st). split_and!.
    + unfold step, handler, pure.
      rewrite (handleMouseMove_Dragging _ _ _ _ _ _ Hdrag). simpl.
      by rewrite decide_True.
    + rewrite (handleMouseMove_Dragging _ _ _ _ _ _ Hdrag). simpl.
      apply length_fmap.
    + intros i s Hi. rewrite (handleMouseMove_Dragging _ _ _ _ _ _ Hdrag). simpl.
      rewrite list_lookup_fmap, Hi. simpl. eexists. split; [reflexivity |].
      case_decide; split; try done.
      intros _.
      destruct (resizeSheet_overrides type (index_key index) size s)
        as (Hsame & Hother & _).
      split; [exact Hsame | exact Hother].
    + apply Z.le_max_l.
    + intros Hreq. subst size. lia.
  - intros st Hreach s Hs.
    pose proof (reachable_geometry_ok st Hreach) as Hok.
    unfold geometry_ok in Hok. rewrite Forall_forall in Hok.
    specialize (Hok s Hs). split.
    + intros widths col width Hw Hcol.
      exact (Hok Column widths Hw col width Hcol).
    + intros heights row height Hh Hrow.
      exact (Hok Row heights Hh row height Hrow).
  - intros type startSize startPos target Hmin. unfold newSize, minimum in *.
    destruct type; lia.
Qed.

Lemma resize_floor_witness :
  ∃ st', step dragging_A (MouseMove 10 0) = Done st' ∧
    length (sheets st') = length (sheets dragging_A) ∧
    (∀ (i : nat) s, sheets dragging_A !! i = Some s →
       ∃ s', sheets st' !! i = Some s' ∧
         (Sheet.id s ≠ "1" → s' = s) ∧
         (Sheet.id s = "1" →
            Sheet.columnWidths s'
            = Some (<["A" := 20]> (default ∅ (Sheet.columnWidths s))) ∧
            Sheet.rowHeights s' = Sheet.rowHeights s)) ∧
    20 ≤ 20 ∧ (96 + (10 - 100) ≤ 20 → 20 = 20).
Proof.
  assert (Hdrag : Dragging dragging_A Column (Label "A"))
    by (repeat split; reflexivity).
  exact (proj1 resize_floor dragging_A Column (Label "A") 10 0 Hdrag).
Defined.

(** Counterexample to C5 as stated: a request of startSize - 50 is not
    below the minimum when the drag starts from the default column width.
    Dragging column "A" of the initial sheet 50 to the left stores 46. *)
Lemma drag_minus_50_stores_46 :
  ∃ st st',
    run initialState [ResizeStart Column (Label "A") 100 0] = Done st ∧
    Dragging st Column (Label "A") ∧
    resizeStartSize st = DEFAULT_COLUMN_WIDTH ∧
    step st (MouseMove (100 - 50) 0) = Done st' ∧
    (λ s, Sheet.columnWidths s ≫= (.!! "A")) <$> sheets st' = [Some 46] ∧
    46 = resizeStartSize st - 50 ∧
    46 ≠ MIN_COLUMN_WIDTH.
Proof.
  eexists _, _. split; [vm_compute; reflexivity |].
  split; [by repeat split |]. split; [reflexivity |].
  split; [vm_compute; reflexivity |].
  split; [vm_compute; reflexivity |]. split; [reflexivity | discriminate].
Qed.

(** The floor on the row side: from the default height 24, a request of
    24 - 50 stores the minimum 15. *)
Example drag_row_floor :
  match run initialState [ResizeStart Row (Number 3) 0 200; MouseMove 0 150] with
  | Done st => (λ s, Sheet.rowHeights s ≫= (.!! "3")) <$> sheets st = [Some 15]
  | Threw _ => False
  end.
Proof. vm_compute. reflexivity. Qed.

(** * Further properties of the component *)

(** ** Cell ids *)

(** X1. Two different cells of the grid never share an id, so they never
    share an entry of a sheet's cell map. *)
Theorem cell_ids_distinct (row col row' col' : Z) :
  in_grid row col = true → in_grid row' col' = true →
  (row, col) ≠ (row', col') → getCellId row col ≠ getCellId row' col'.
Proof.
  intros Hg Hg' Hne Heq.
  apply bool_decide_eq_true in Hg as [Hr Hc].
  apply bool_decide_eq_true in Hg' as [Hr' Hc'].
  apply getCellId_inj in Heq as [-> ->]; [done | lia | done | lia | done].
Qed.

Lemma cell_ids_distinct_witness :
  in_grid 0 0 = true ∧ in_grid 0 1 = true ∧ getCellId 0 0 ≠ getCellId 0 1.
Proof.
  split; [reflexivity |]. split; [reflexivity |].
  apply cell_ids_distinct; [reflexivity | reflexivity | discriminate].
Defined.

Lemma at_index_COLUMNS_outside (col : Z) :
  ¬ (0 ≤ col < 26) → JS.at_index COLUMNS col = None.
Proof.
  intros Hcol. unfold JS.at_index. case_decide; [| done].
  apply lookup_ge_None. change (length COLUMNS) with 26%nat. lia.
Qed.

(** X2. Outside the 26 columns [COLUMNS[col]] is [undefined]: the id is
    "undefined" followed by the row number, the same for every such column,
    and decoding it gives column -1. *)
Theorem getCellId_outside_columns (row col : Z) :
  ¬ (0 ≤ col < 26) →
  getCellId row col = "undefined" +:+ JS.toString (row + 1) ∧
  colOf (getCellId row col) = -1 ∧
  ∀ col', ¬ (0 ≤ col' < 26) → getCellId row col' = getCellId row col.
Proof.
  intros Hcol. unfold getCellId. rewrite at_index_COLUMNS_outside by done.
  split_and!; [done | by vm_compute |].
  intros col' Hcol'. by rewrite at_index_COLUMNS_outside.
Qed.

Lemma getCellId_outside_columns_witness :
  getCellId 4 26 = "undefined" +:+ JS.toString (4 + 1) ∧
  colOf (getCellId 4 26) = -1 ∧
  ∀ col', ¬ (0 ≤ col' < 26) → getCellId 4 col' = getCellId 4 26.
Proof. apply getCellId_outside_columns. lia. Defined.

Lemma indexOf_from_spec (arr : list string) (x : string) (k : Z) :
  (JS.indexOf_from arr x k = -1 ∧ x ∉ arr) ∨
  (k ≤ JS.indexOf_from arr x k < k + Z.of_nat (length arr) ∧
   arr !! Z.to_nat (JS.indexOf_from arr x k - k) = Some x) ∨
  k < 0.
Proof.
  destruct (decide (k < 0)) as [| Hk]; [by right; right |].
  revert k Hk. induction arr as [| y arr IH]; intros k Hk; simpl.
  - left. split; [done | apply not_elem_of_nil].
  - case_decide as Hy.
    + right. left. subst y. rewrite Z.sub_diag. simpl. split; [lia | done].
    + assert (Hk1 : ¬ k + 1 < 0) by lia.
      destruct (IH (k + 1) Hk1) as [[Hr Hx] | [[Hr Hx] | ?]]; [| | lia].
      * left. split; [done |]. rewrite not_elem_of_cons. by split.
      * right. left. split; [lia |].
        replace (Z.to_nat (JS.indexOf_from arr x (k + 1) - k))
          with (S (Z.to_nat (JS.indexOf_from arr x (k + 1) - (k + 1)))) by lia.
        done.
Qed.

(** X3. Decoding the column of any string: the result is -1 or an index
    below 26; it is -1 exactly when the string is empty or its first
    character is not one of the column labels, and otherwise it is the
    index of that first character in [COLUMNS]. *)
Theorem colOf_range (cellId : string) :
  -1 ≤ colOf cellId < 26 ∧
  (colOf cellId = -1 ↔ ∀ label, JS.char0 cellId = Some label → label ∉ COLUMNS) ∧
  (0 ≤ colOf cellId → JS.at_index COLUMNS (colOf cellId) = JS.char0 cellId).
Proof.
  unfold colOf, JS.indexOf. destruct (JS.char0 cellId) as [label |].
  2:{ split; [lia |]. split; [done | lia]. }
  destruct (indexOf_from_spec COLUMNS label 0) as [[Hr Hx] | [[Hr Hx] | ?]]; [| | lia].
  - rewrite Hr. split; [lia |]. split; [| lia].
    split; [| done]. by intros _ ? [= <-].
  - change (Z.of_nat (length COLUMNS)) with 26 in Hr. rewrite Z.sub_0_r in Hx.
    split; [lia |]. split.
    + split; [lia |]. intros Hnot. exfalso. apply (Hnot label eq_refl).
      by eapply list_elem_of_lookup_2.
    + intros _. unfold JS.at_index. by rewrite decide_True by lia.
Qed.

(** ** Opening and closing a cell input *)

(** X4. A click on a cell opens it for editing with the stored value as the
    draft.  It writes nothing: the sheets are as before, so a draft left in
    another open input is not saved by the click itself. *)
Theorem click_opens_cell (st : State) (row col : Z) :
  has_active st →
  ∃ st' s, step st (CellClick row col) = Done st' ∧
    activeSheet st = Some s ∧
    sheets st' = sheets st ∧ activeSheetId st' = activeSheetId st ∧
    Editing st' (getCellId row col) (getCell s (getCellId row col)).
Proof.
  intros Hact. destruct (activeSheet_has_active st Hact) as (s & Hs & _).
  unfold step, handler. rewrite (handleCellClick_Done _ _ _ _ _ Hs). simpl.
  rewrite decide_True by done. eexists _, s. by split_and!.
Qed.

Lemma click_opens_cell_witness :
  ∃ st' s, step editing_B2 (CellClick 0 0) = Done st' ∧
    activeSheet editing_B2 = Some s ∧
    sheets st' = sheets editing_B2 ∧ activeSheetId st' = activeSheetId editing_B2 ∧
    Editing st' (getCellId 0 0) (getCell s (getCellId 0 0)).
Proof. apply click_opens_cell. apply list_elem_of_here. Defined.

(** X5. A key other than Enter, Tab and the four arrows is not handled: the
    state is unchanged.  In particular Escape neither cancels nor commits
    the draft. *)
Theorem other_keys_ignored (st : State) (key : string) (row col : Z) :
  key ∉ directional_keys → step st (KeyDown key row col) = Done st.
Proof.
  unfold directional_keys. rewrite !not_elem_of_cons. intros (? & ? & ? & ? & ? & ? & _).
  unfold step, handler, handleKeyDown.
  rewrite !decide_False by done. unfold pure. by rewrite decide_True.
Qed.

Lemma other_keys_ignored_witness :
  step editing_B2 (KeyDown "Escape" 1 1) = Done editing_B2.
Proof.
  apply other_keys_ignored. unfold directional_keys.
  rewrite !not_elem_of_cons. split_and!; try discriminate. apply not_elem_of_nil.
Defined.

Lemma handleCellBlur_closed snap cur :
  editingCell snap = None → handleCellBlur snap cur = setEditingCell None cur.
Proof.
  intros Hed. unfold handleCellBlur. rewrite Hed.
  destruct (selectedCell snap) as [c |]; [| done].
  destruct (JS.truthy (Some c)); [| done].
  by rewrite bool_decide_eq_false_2.
Qed.

(** X6. Blur is idempotent: a second blur, with no input open, writes
    nothing and leaves the state as the first blur made it; in any state
    whose [editingCell] is [null] a blur changes nothing at all. *)
Theorem blur_idempotent (st : State) :
  run st [CellBlur; CellBlur] = run st [CellBlur] ∧
  (editingCell st = None → step st CellBlur = Done st).
Proof.
  assert (Hclosed : ∀ st0, editingCell st0 = None → step st0 CellBlur = Done st0).
  { intros st0 Hed. unfold step, handler, pure.
    rewrite (handleCellBlur_closed _ _ Hed). rewrite decide_True by done.
    f_equal. destruct st0. simpl in Hed. by subst. }
  split; [| apply Hclosed].
  assert (∃ st1, step st CellBlur = Done st1 ∧ editingCell st1 = None)
    as (st1 & Hstep & Hed).
  { unfold step, handler, pure.
    destruct (handleCellBlur_fields st st) as (_ & Hact & _ & Hed).
    rewrite decide_True by done. eauto. }
  rewrite !(run_cons _ _ _ _ Hstep).
  by rewrite (run_cons _ _ _ _ (Hclosed st1 Hed)).
Qed.

(** ** Resizing and the displayed sizes *)

Section Displayed.

Implicit Types (st : State) (s : Sheet.t).

(** Mapping a function that keeps ids over the sheets maps the active
    sheet. *)
Lemma activeSheet_fmap st st' (f : Sheet.t → Sheet.t) :
  (∀ s, Sheet.id (f s) = Sheet.id s) →
  activeSheetId st' = activeSheetId st → sheets st' = f <$> sheets st →
  activeSheet st' = f <$> activeSheet st.
Proof.
  intros Hf Hact Hsheets. unfold activeSheet. rewrite Hact, Hsheets.
  rewrite find_fmap.
  2:{ intros s. by rewrite Hf. }
  destruct (JS.find _ (sheets st)); [done |].
  unfold JS.at_index. simpl. rewrite list_lookup_fmap.
  by destruct (sheets st !! 0%nat).
Qed.

Lemma displayedSize_sheet type st s key :
  activeSheet st = Some s →
  displayedSize type st key
  = Some (lookup_or (overrides type s) key
            (match type with
             | Column => DEFAULT_COLUMN_WIDTH
             | Row => DEFAULT_ROW_HEIGHT
             end)).
Proof.
  intros Hs. unfold displayedSize, getColumnWidth, getRowHeight.
  rewrite Hs. by destruct type.
Qed.

Lemma lookup_or_insert_eq old key size dflt :
  size ≠ 0 → lookup_or (Some (<[key := size]> (default ∅ old))) key dflt = size.
Proof.
  intros Hsize. unfold lookup_or. simpl. rewrite lookup_insert_eq.
  by rewrite decide_False.
Qed.

Lemma lookup_or_insert_ne old key key' size dflt :
  key' ≠ key →
  lookup_or (Some (<[key := size]> (default ∅ old))) key' dflt
  = lookup_or old key' dflt.
Proof.
  intros Hne. unfold lookup_or. simpl. rewrite lookup_insert_ne by done.
  destruct old as [m |]; simpl; [done |]. by rewrite lookup_empty.
Qed.

Lemma lookup_or_ge m key dflt bound :
  bound ≤ dflt →
  (∀ m0 size, m = Some m0 → m0 !! key = Some size → bound ≤ size) →
  bound ≤ lookup_or m key dflt.
Proof.
  intros Hd Hm. unfold lookup_or. destruct m as [m0 |]; simpl; [| done].
  destruct (m0 !! key) as [size |] eqn:Hk; [| done].
  case_decide; [done |]. by apply (Hm m0).
Qed.

End Displayed.

(** X7. A drag, seen through the displayed sizes.  Pressing a resize handle
    captures the size the grid shows for that column or row (the default
    when there is no override) and the pointer coordinate, without touching
    the sheets.  After a pointer move the grid shows
    max(minimum, captured + displacement) for the dragged key, and the sizes
    of every other key and of the other axis are as before.  Where the
    stored sizes respect the minimum, the captured size does too, so moving
    back to the start coordinate shows the captured size again. *)
Theorem drag_sets_displayed_size (st : State) (type : ResizeKind)
    (index : ResizeIndex) (x y x' y' : Z) :
  has_active st →
  ∃ size0 st1 st2,
    displayedSize type st (index_key index) = Some size0 ∧
    step st (ResizeStart type index x y) = Done st1 ∧
    Dragging st1 type index ∧ resizeStartSize st1 = size0 ∧
    resizeStartPos st1 = pointer type x y ∧ sheets st1 = sheets st ∧
    step st1 (MouseMove x' y') = Done st2 ∧
    displayedSize type st2 (index_key index)
    = Some (Z.max (minimum type) (size0 + (pointer type x' y' - pointer type x y))) ∧
    (∀ key, key ≠ index_key index →
            displayedSize type st2 key = displayedSize type st key) ∧
    (∀ key, displayedSize (other_kind type) st2 key
            = displayedSize (other_kind type) st key) ∧
    (geometry_ok st → minimum type ≤ size0).
Proof.
  intros Hact. destruct (activeSheet_has_active st Hact) as (s & Hs & Hsid).
  pose (dflt := match type with
                | Column => DEFAULT_COLUMN_WIDTH | Row => DEFAULT_ROW_HEIGHT end).
  pose (size0 := lookup_or (overrides type s) (index_key index) dflt).
  pose (st1 := setResizeStartSize size0
                 (setResizeStartPos (pointer type x y)
                    (setResizingIndex (Some index)
                       (setResizingType (Some type) (setIsResizing true st))))).
  pose (size := newSize type size0 (pointer type x y) (pointer type x' y')).
  pose (f := λ s0, if decide (Sheet.id s0 = activeSheetId st)
                   then resizeSheet type (index_key index) size s0 else s0).
  pose (st2 := setSheets (fmap f) st1).
  assert (Hdrag : Dragging st1 type index) by done.
  assert (Hs2 : activeSheet st2 = Some (resizeSheet type (index_key index) size s)).
  { rewrite (activeSheet_fmap st st2 f); [| | done | done].
    - rewrite Hs. simpl. unfold f. by rewrite decide_True.
    - intros s0. unfold f. case_decide; [| done].
      by destruct (resizeSheet_overrides type (index_key index) size s0)
        as (_ & _ & ? & _). }
  destruct (resizeSheet_overrides type (index_key index) size s)
    as (Hsame & Hother & _).
  assert (Hpos : size ≠ 0).
  { pose proof (newSize_ge type size0 (pointer type x y) (pointer type x' y')).
    fold size in H. unfold minimum, MIN_COLUMN_WIDTH, MIN_ROW_HEIGHT in H.
    destruct type; lia. }
  exists size0, st1, st2. split_and!; try done.
  - by rewrite (displayedSize_sheet type st s).
  - unfold step, handler, handleResizeStart, bind, pure, eval.
    assert (Hd : match type with
                 | Column => getColumnWidth st (index_key index)
                 | Row => getRowHeight st (index_key index)
                 end = Some size0).
    { change (displayedSize type st (index_key index) = Some size0).
      by rewrite (displayedSize_sheet type st s). }
    rewrite Hd. simpl. rewrite decide_True by done. by destruct type.
  - unfold step, handler, pure.
    rewrite (handleMouseMove_Dragging st1 st1 type index x' y' Hdrag).
    simpl. by rewrite decide_True.
  - rewrite (displayedSize_sheet type st2 _ _ Hs2), Hsame.
    by rewrite lookup_or_insert_eq.
  - intros key Hkey.
    rewrite (displayedSize_sheet type st2 _ _ Hs2), Hsame.
    rewrite (displayedSize_sheet type st s) by done.
    by rewrite lookup_or_insert_ne.
  - intros key.
    rewrite (displayedSize_sheet (other_kind type) st2 _ _ Hs2), Hother.
    by rewrite (displayedSize_sheet (other_kind type) st s).
  - intros Hok. unfold size0. apply lookup_or_ge.
    + destruct type; unfold dflt, minimum; done.
    + intros m0 sz Hm Hk.
      unfold geometry_ok in Hok. rewrite Forall_forall in Hok.
      assert (Hin : s ∈ sheets st).
      { unfold activeSheet in Hs.
        destruct (JS.find _ (sheets st)) as [s0 |] eqn:Hfind.
        - injection Hs as ->. clear -Hfind.
          induction (sheets st) as [| a l IH]; [done |]. simpl in Hfind.
          destruct (bool_decide _); [injection Hfind as ->; left | right; auto].
        - unfold JS.at_index in Hs. simpl in Hs.
          by eapply list_elem_of_lookup_2. }
      exact (Hok s Hin type m0 Hm (index_key index) sz Hk).
Qed.

Lemma drag_sets_displayed_size_witness :
  ∃ size0 st1 st2,
    displayedSize Row initialState "3" = Some size0 ∧
    step initialState (ResizeStart Row (Number 3) 0 200) = Done st1 ∧
    Dragging st1 Row (Number 3) ∧ resizeStartSize st1 = size0 ∧
    resizeStartPos st1 = 200 ∧ sheets st1 = sheets initialState ∧
    step st1 (MouseMove 0 230) = Done st2 ∧
    displayedSize Row st2 "3" = Some (Z.max 15 (size0 + (230 - 200))) ∧
    (∀ key, key ≠ "3" → displayedSize Row st2 key = displayedSize Row initialState key) ∧
    (∀ key, displayedSize Column st2 key = displayedSize Column initialState key) ∧
    (geometry_ok initialState → 15 ≤ size0).
Proof.
  apply (drag_sets_displayed_size initialState Row (Number 3) 0 200 0 230).
  apply list_elem_of_here.
Defined.

(** X8. Releasing the pointer ends the drag: the resize state is cleared,
    the sheets are untouched, and pointer moves after it write nothing.  A
    pointer move in any state without a drag in progress changes
    nothing. *)
Theorem mouse_up_ends_drag (st : State) :
  (∃ st1, step st MouseUp = Done st1 ∧
          isResizing st1 = false ∧ resizingType st1 = None ∧
          resizingIndex st1 = None ∧ sheets st1 = sheets st ∧
          ∀ x y, step st1 (MouseMove x y) = Done st1) ∧
  (isResizing st = false ∨ resizingType st = None ∨ resizingIndex st = None →
   ∀ x y, step st (MouseMove x y) = Done st).
Proof.
  assert (Hidle : ∀ st0, isResizing st0 = false ∨ resizingType st0 = None
                         ∨ resizingIndex st0 = None →
                         ∀ x y, step st0 (MouseMove x y) = Done st0).
  { intros st0 Hno x y. unfold step, handler, pure.
    assert (handleMouseMove st0 x y st0 = st0) as ->.
    { unfold handleMouseMove. destruct Hno as [-> | [-> | ->]];
        [done | by destruct (isResizing st0)
        | by destruct (isResizing st0), (resizingType st0)]. }
    by rewrite decide_True. }
  split; [| apply Hidle].
  exists (handleMouseUp st). split_and!; try done.
  - unfold step, handler, pure. by rewrite decide_True.
  - apply Hidle. by left.
Qed.

(** ** What an event can change *)

Section Frames.

Implicit Types (st snap cur : State) (s : Sheet.t) (e : Event).

Lemma handleCellBlur_shape st cur :
  ∃ f, sheet_update st f ∧ sheets (handleCellBlur st cur) = f <$> sheets cur.
Proof.
  unfold handleCellBlur. destruct (selectedCell st) as [c |] eqn:Hsel.
  - destruct (JS.truthy _ && bool_decide _).
    + eexists. split; [by apply (upd_write st c (cellValue st)) | done].
    + exists (λ s, s). split; [constructor | by rewrite list_fmap_id].
  - exists (λ s, s). split; [constructor | by rewrite list_fmap_id].
Qed.

Lemma formulaBarChange_shape st value cur :
  ∃ f, sheet_update st f ∧ sheets (formulaBarChange st value cur) = f <$> sheets cur.
Proof.
  unfold formulaBarChange. destruct (selectedCell st) as [c |] eqn:Hsel.
  - destruct (JS.truthy _).
    + eexists. split; [by apply (upd_write st c value) | done].
    + exists (λ s, s). split; [constructor | by rewrite list_fmap_id].
  - exists (λ s, s). split; [constructor | by rewrite list_fmap_id].
Qed.

Lemma sheetTabClick_shape st sheetId cur :
  ∃ f, sheet_update st f ∧ sheets (sheetTabClick st sheetId cur) = f <$> sheets cur.
Proof.
  unfold sheetTabClick. destruct (selectedCell st) as [c |] eqn:Hsel.
  - destruct (JS.truthy _ && bool_decide _).
    + eexists. split; [by apply (upd_write st c (cellValue st)) | done].
    + exists (λ s, s). split; [constructor | by rewrite list_fmap_id].
  - exists (λ s, s). split; [constructor | by rewrite list_fmap_id].
Qed.

Lemma handleMouseMove_shape st x y cur :
  ∃ f, sheet_update st f ∧ sheets (handleMouseMove st x y cur) = f <$> sheets cur.
Proof.
  destruct (isResizing st) eqn:Hres.
  2:{ exists (λ s, s). unfold handleMouseMove. rewrite Hres.
      split; [constructor | by rewrite list_fmap_id]. }
  destruct (resizingType st) as [type |] eqn:Htype.
  2:{ exists (λ s, s). unfold handleMouseMove. rewrite Hres, Htype.
      split; [constructor | by rewrite list_fmap_id]. }
  destruct (resizingIndex st) as [index |] eqn:Hidx.
  2:{ exists (λ s, s). unfold handleMouseMove. rewrite Hres, Htype, Hidx.
      split; [constructor | by rewrite list_fmap_id]. }
  rewrite (handleMouseMove_Dragging st cur type index x y) by done.
  eexists. split; [| reflexivity].
  apply (upd_resize st type). apply newSize_ge.
Qed.

(** The shape of the collection after any event but a deletion: one of the
    per-sheet updates mapped over the old sheets, followed by the new sheet
    if the event is a creation. *)
Lemma step_sheets_shape st e st' :
  step st e = Done st' → ¬ is_delete e →
  ∃ f extra, sheet_update st f ∧ sheets st' = (f <$> sheets st) ++ extra ∧
             (extra = [] ∨ is_add e).
Proof.
  intros Hstep Hdel. unfold step in Hstep.
  destruct (handler st e st) as [st1 |] eqn:Hrun; [| done].
  injection Hstep as <-.
  assert (∃ f extra, sheet_update st f ∧ sheets st1 = (f <$> sheets st) ++ extra ∧
                     (extra = [] ∨ is_add e)) as (f & extra & Hf & Hs & Hx).
  2:{ exists f, extra. split_and!; [done | | done]. by case_decide. }
  assert (Hsame : ∀ l : list Sheet.t, l = ((λ s, s) <$> l) ++ []).
  { intros l. by rewrite list_fmap_id, app_nil_r. }
  assert (Hmap : ∀ (g : Sheet.t → Sheet.t) (l : list Sheet.t),
            g <$> l = (g <$> l) ++ []).
  { intros g l. by rewrite app_nil_r. }
  destruct e; simpl in Hrun, Hdel; unfold pure in Hrun; try done.
  - apply handleCellClick_sheets in Hrun. rewrite Hrun.
    exists (λ s, s), []. split_and!; [constructor | apply Hsame | by left].
  - injection Hrun as <-.
    exists (λ s, s), []. split_and!; [constructor | apply Hsame | by left].
  - injection Hrun as <-. destruct (handleCellBlur_shape st st) as (f & Hf & ->).
    exists f, []. split_and!; [done | apply Hmap | by left].
  - apply handleKeyDown_sheets in Hrun. destruct Hrun as [-> | ->].
    + destruct (handleCellBlur_shape st st) as (f & Hf & ->).
      exists f, []. split_and!; [done | apply Hmap | by left].
    + exists (λ s, s), []. split_and!; [constructor | apply Hsame | by left].
  - injection Hrun as <-. destruct (formulaBarChange_shape st value st) as (f & Hf & ->).
    exists f, []. split_and!; [done | apply Hmap | by left].
  - injection Hrun as <-. eexists (λ s, s), _. split_and!; [constructor | | by right].
    unfold addNewSheet. simpl. by rewrite list_fmap_id.
  - injection Hrun as <-. eexists _, []. split_and!; [| apply Hmap | by left].
    apply upd_rename.
  - injection Hrun as <-. destruct (sheetTabClick_shape st sheetId st) as (f & Hf & ->).
    exists f, []. split_and!; [done | apply Hmap | by left].
  - apply handleResizeStart_sheets in Hrun. rewrite Hrun.
    exists (λ s, s), []. split_and!; [constructor | apply Hsame | by left].
  - injection Hrun as <-. destruct (handleMouseMove_shape st clientX clientY st) as (f & Hf & ->).
    exists f, []. split_and!; [done | apply Hmap | by left].
  - injection Hrun as <-.
    exists (λ s, s), []. split_and!; [constructor | apply Hsame | by left].
Qed.

(** What each per-sheet update keeps. *)
Lemma sheet_update_keeps st f s :
  sheet_update st f →
  Sheet.id (f s) = Sheet.id s ∧
  (Sheet.id s ≠ activeSheetId st →
     Sheet.data (f s) = Sheet.data s ∧
     Sheet.columnWidths (f s) = Sheet.columnWidths s ∧
     Sheet.rowHeights (f s) = Sheet.rowHeights s) ∧
  (∀ c, selectedCell st ≠ Some c → Sheet.data (f s) !! c = Sheet.data s !! c) ∧
  (∀ c, is_Some (Sheet.data s !! c) → is_Some (Sheet.data (f s) !! c)) ∧
  (∀ type m key, overrides type s = Some m → is_Some (m !! key) →
     ∃ m', overrides type (f s) = Some m' ∧ is_Some (m' !! key)).
Proof.
  intros Hf. destruct Hf as [| c v Hsel | sid n | type key size Hsize].
  - split_and!; try done. eauto.
  - unfold writeCell. case_decide as Hid; simpl.
    + split_and!; try done.
      * intros c' Hc'. rewrite lookup_insert_ne; [done |]. congruence.
      * intros c' Hc'. apply lookup_insert_is_Some'. by right.
      * intros type m key Hm Hk. exists m. split; [by destruct type | done].
    + split_and!; try done. eauto.
  - case_decide; simpl.
    + split_and!; try done.
      intros type m key Hm Hk. exists m. split; [by destruct type | done].
    + split_and!; try done. eauto.
  - case_decide as Hid.
    + destruct (resizeSheet_overrides type key size s)
        as (Hsame & Hother & Hrid & _ & Hdata).
      split_and!; try done.
      * by intros c _; rewrite Hdata.
      * intros c. by rewrite Hdata.
      * intros type' m key' Hm Hk.
        destruct (decide (type' = type)) as [-> | Hne].
        -- eexists. split; [exact Hsame |]. rewrite Hm. simpl.
           apply lookup_insert_is_Some'. by right.
        -- assert (type' = other_kind type) as -> by (destruct type, type'; done).
           exists m. split; [by rewrite Hother | done].
    + split_and!; try done. eauto.
Qed.

End Frames.

Lemma step_activeSheetId (st : State) (e : Event) (st' : State) :
  step st e = Done st' → ¬ is_add e → ¬ is_delete e → ¬ is_tab_click e →
  activeSheetId st' = activeSheetId st.
Proof.
  intros Hstep Hadd Hdel Htab. unfold step in Hstep.
  destruct (handler st e st) as [st1 |] eqn:Hrun; [| done].
  injection Hstep as <-.
  assert (Hact : activeSheetId st1 = activeSheetId st).
  2:{ by rewrite decide_True. }
  destruct e; simpl in Hrun, Hadd, Hdel, Htab; unfold pure in Hrun; try done.
  - by apply handleCellClick_fields in Hrun as (_ & ? & _).
  - by injection Hrun as <-.
  - injection Hrun as <-. by destruct (handleCellBlur_fields st st) as (_ & ? & _).
  - destruct (handleCellBlur_fields st st) as (_ & Hb & _).
    revert Hrun. unfold handleKeyDown.
    repeat case_decide; unfold bind, pure at 1; intros Hrun;
      first [ apply handleCellClick_fields in Hrun as (_ & -> & _); exact Hb
            | injection Hrun as <-; (exact Hb || reflexivity) ].
  - injection Hrun as <-. by destruct (formulaBarChange_fields st value st) as (_ & ? & _).
  - by injection Hrun as <-.
  - by apply handleResizeStart_fields in Hrun as (_ & ? & _).
  - injection Hrun as <-.
    by destruct (handleMouseMove_fields st clientX clientY st) as (_ & ? & _).
  - by injection Hrun as <-.
Qed.

(** X9. What an event can change in the collection.  Clicking a cell,
    typing in it, pressing a resize handle and releasing the pointer leave
    every sheet as it is.  No event but a creation or a deletion changes
    which sheets there are or their order.  No event but a creation, a
    deletion or a tab click changes the active sheet. *)
Theorem event_frames (st : State) (e : Event) (st' : State) :
  step st e = Done st' →
  (passive_event e → sheets st' = sheets st) ∧
  (¬ is_add e → ¬ is_delete e → sheetIds st' = sheetIds st) ∧
  (¬ is_add e → ¬ is_delete e → ¬ is_tab_click e →
   activeSheetId st' = activeSheetId st).
Proof.
  intros Hstep. split_and!.
  - intros Hp. unfold step in Hstep.
    destruct (handler st e st) as [st1 |] eqn:Hrun; [| done].
    injection Hstep as <-.
    assert (sheets st1 = sheets st) as <-; [| by case_decide].
    destruct e; simpl in Hrun, Hp; unfold pure in Hrun; try done.
    + by apply handleCellClick_sheets in Hrun.
    + by injection Hrun as <-.
    + by apply handleResizeStart_sheets in Hrun.
    + by injection Hrun as <-.
  - intros Hadd Hdel.
    destruct (step_sheets_shape st e st' Hstep Hdel)
      as (f & extra & Hf & Hs & [-> | ?]); [| done].
    unfold sheetIds. rewrite Hs, app_nil_r, <- list_fmap_compose.
    apply list_fmap_ext. intros _ s _. simpl.
    by destruct (sheet_update_keeps st f s Hf) as (? & _).
  - by apply step_activeSheetId.
Qed.

Lemma event_frames_witness :
  (passive_event (CellClick 2 2) →
   sheets (setCellValue "" (setEditingCell (Some "C3")
             (setSelectedCell (Some "C3") editing_B2))) = sheets editing_B2) ∧
  (¬ is_add (CellClick 2 2) → ¬ is_delete (CellClick 2 2) →
   sheetIds (setCellValue "" (setEditingCell (Some "C3")
               (setSelectedCell (Some "C3") editing_B2))) = sheetIds editing_B2) ∧
  (¬ is_add (CellClick 2 2) → ¬ is_delete (CellClick 2 2) →
   ¬ is_tab_click (CellClick 2 2) →
   activeSheetId (setCellValue "" (setEditingCell (Some "C3")
                    (setSelectedCell (Some "C3") editing_B2)))
   = activeSheetId editing_B2).
Proof. apply (event_frames editing_B2 (CellClick 2 2)). reflexivity. Defined.

(** X10. An edit touches one cell.  Across any event but a deletion, each
    sheet keeps its place and its id; a sheet whose id is not the active one
    keeps its cells and its geometry; and in every sheet each cell other
    than the selected one holds what it held. *)
Theorem edits_touch_selected_cell (st : State) (e : Event) (st' : State) :
  step st e = Done st' → ¬ is_delete e →
  ∀ (i : nat) (s : Sheet.t), sheets st !! i = Some s →
    ∃ s', sheets st' !! i = Some s' ∧ Sheet.id s' = Sheet.id s ∧
      (Sheet.id s ≠ activeSheetId st →
         Sheet.data s' = Sheet.data s ∧
         Sheet.columnWidths s' = Sheet.columnWidths s ∧
         Sheet.rowHeights s' = Sheet.rowHeights s) ∧
      (∀ c, selectedCell st ≠ Some c →
            Sheet.data s' !! c = Sheet.data s !! c ∧ getCell s' c = getCell s c).
Proof.
  intros Hstep Hdel i s Hi.
  destruct (step_sheets_shape st e st' Hstep Hdel) as (f & extra & Hf & Hs & _).
  destruct (sheet_update_keeps st f s Hf) as (Hid & Hother & Hcell & _).
  exists (f s). split_and!; try done.
  - rewrite Hs. apply lookup_app_l_Some. by rewrite list_lookup_fmap, Hi.
  - intros c Hc. pose proof (Hcell c Hc) as Heq. split; [done |].
    unfold getCell. by rewrite Heq.
Qed.

Lemma edits_touch_selected_cell_witness :
  ∃ s', sheets (setEditingCell None
                  (setSheets (setCell "1" "B2" "42") editing_B2)) !! 0%nat = Some s' ∧
    Sheet.id s' = "1" ∧
    ("1" ≠ activeSheetId editing_B2 →
       Sheet.data s' = ∅ ∧ Sheet.columnWidths s' = None ∧ Sheet.rowHeights s' = None) ∧
    (∀ c, selectedCell editing_B2 ≠ Some c →
          Sheet.data s' !! c = (∅ : gmap string string) !! c ∧
          getCell s' c = getCell (Sheet.mk "1" "Sheet1" ∅ None None) c).
Proof.
  apply (edits_touch_selected_cell editing_B2 CellBlur _ eq_refl (λ H, H) 0%nat
           (Sheet.mk "1" "Sheet1" ∅ None None) eq_refl).
Defined.

(** X11. Nothing is removed but by deleting a sheet.  Across any event but
    a deletion, every cell entry of every sheet is still present, and so is
    every column-width and row-height override; entries are overwritten or
    added, never dropped. *)
Theorem entries_never_removed (st : State) (e : Event) (st' : State) :
  step st e = Done st' → ¬ is_delete e →
  (length (sheets st) ≤ length (sheets st'))%nat ∧
  ∀ (i : nat) (s : Sheet.t), sheets st !! i = Some s →
    ∃ s', sheets st' !! i = Some s' ∧ Sheet.id s' = Sheet.id s ∧
      (∀ c, is_Some (Sheet.data s !! c) → is_Some (Sheet.data s' !! c)) ∧
      (∀ widths col, Sheet.columnWidths s = Some widths → is_Some (widths !! col) →
         ∃ widths', Sheet.columnWidths s' = Some widths' ∧ is_Some (widths' !! col)) ∧
      (∀ heights row, Sheet.rowHeights s = Some heights → is_Some (heights !! row) →
         ∃ heights', Sheet.rowHeights s' = Some heights' ∧ is_Some (heights' !! row)).
Proof.
  intros Hstep Hdel.
  destruct (step_sheets_shape st e st' Hstep Hdel) as (f & extra & Hf & Hs & _).
  split.
  - rewrite Hs, length_app, length_fmap. lia.
  - intros i s Hi.
    destruct (sheet_update_keeps st f s Hf) as (Hid & _ & _ & Hdata & Hgeom).
    exists (f s). split_and!; try done.
    + rewrite Hs. apply lookup_app_l_Some. by rewrite list_lookup_fmap, Hi.
    + intros widths col. apply (Hgeom Column).
    + intros heights row. apply (Hgeom Row).
Qed.

Lemma entries_never_removed_witness :
  (∃ st' s', step filled_dragging_B (MouseMove 110 0) = Done st' ∧
     sheets st' !! 0%nat = Some s' ∧
     is_Some (Sheet.data s' !! "B2") ∧
     (∃ widths', Sheet.columnWidths s' = Some widths' ∧ is_Some (widths' !! "A")) ∧
     (∃ heights', Sheet.rowHeights s' = Some heights' ∧ is_Some (heights' !! "0"))) ∧
  (∃ st' s', step filled_editing_B2 CellBlur = Done st' ∧
     sheets st' !! 0%nat = Some s' ∧
     is_Some (Sheet.data s' !! "B2") ∧
     (∃ widths', Sheet.columnWidths s' = Some widths' ∧ is_Some (widths' !! "A")) ∧
     (∃ heights', Sheet.rowHeights s' = Some heights' ∧ is_Some (heights' !! "0"))).
Proof.
  assert (Hcell : is_Some (Sheet.data filled_sheet !! "B2")).
  { exists "41". vm_compute. reflexivity. }
  assert (Hwidth : is_Some (({[ "A" := 120 ]} : gmap string Z) !! "A")).
  { exists 120. vm_compute. reflexivity. }
  assert (Hheight : is_Some (({[ "0" := 30 ]} : gmap string Z) !! "0")).
  { exists 30. vm_compute. reflexivity. }
  split.
  - destruct (entries_never_removed filled_dragging_B (MouseMove 110 0) _
                eq_refl (λ H, H)) as [_ Hkept].
    destruct (Hkept 0%nat filled_sheet eq_refl) as (s' & Hs' & _ & Hd & Hw & Hh).
    eexists _, s'. split_and!; [reflexivity | exact Hs' | by apply Hd | |].
    + by apply (Hw _ "A" eq_refl).
    + by apply (Hh _ "0" eq_refl).
  - destruct (entries_never_removed filled_editing_B2 CellBlur _
                eq_refl (λ H, H)) as [_ Hkept].
    destruct (Hkept 0%nat filled_sheet eq_refl) as (s' & Hs' & _ & Hd & Hw & Hh).
    eexists _, s'. split_and!; [reflexivity | exact Hs' | by apply Hd | |].
    + by apply (Hw _ "A" eq_refl).
    + by apply (Hh _ "0" eq_refl).
Defined.

(** ** Creating, renaming and switching sheets *)

Lemma find_app_None {A} (p : A → bool) (l1 l2 : list A) :
  JS.find p l1 = None → JS.find p (l1 ++ l2) = JS.find p l2.
Proof.
  induction l1 as [| x l1 IH]; [done |]. simpl.
  destruct (p x); [done | exact IH].
Qed.

Lemma find_None_absent (l : list Sheet.t) (sheetId : string) :
  sheetId ∉ (Sheet.id <$> l) →
  JS.find (λ s, bool_decide (Sheet.id s = sheetId)) l = None.
Proof.
  induction l as [| s l IH]; [done |]. rewrite fmap_cons, not_elem_of_cons.
  intros [Hne Hnotin]. simpl. rewrite bool_decide_eq_false_2 by done. auto.
Qed.

(** X12. A new sheet is blank.  When the clock reading is not already an
    id of the collection, [addNewSheet] appends one sheet after the
    existing ones, which stay as they are; the new sheet is the active one,
    is named "Sheet" followed by the new number of sheets, reads [""] at
    every cell and shows the default width 96 and height 24 everywhere;
    the selection is cleared. *)
Theorem new_sheet_is_blank (st : State) (now : Z) :
  has_active st → JS.toString now ∉ sheetIds st →
  ∃ st' s, step st (AddNewSheet now) = Done st' ∧
    sheets st' = sheets st ++ [s] ∧ activeSheet st' = Some s ∧
    activeSheetId st' = JS.toString now ∧ Sheet.id s = JS.toString now ∧
    Sheet.name s = "Sheet" +:+ JS.toString (Z.of_nat (length (sheets st')))  ∧
    (∀ row col, getCellValue st' row col = Some EmptyString) ∧
    (∀ key, getColumnWidth st' key = Some 96 ∧ getRowHeight st' key = Some 24) ∧
    Idle st'.
Proof.
  intros Hact Hfresh.
  assert (Hne : JS.toString now ≠ activeSheetId st).
  { intros Heq. apply Hfresh. by rewrite Heq. }
  pose (s := Sheet.mk (JS.toString now)
               ("Sheet" +:+ JS.toString (Z.of_nat (length (sheets st)) + 1))
               ∅ (Some ∅) (Some ∅)).
  pose (st' := clearSelection (addNewSheet st now st)).
  assert (Hs : activeSheet st' = Some s).
  { unfold activeSheet. simpl. rewrite find_app_None by by apply find_None_absent.
    simpl. by rewrite bool_decide_eq_true_2. }
  exists st', s. split_and!; try done.
  - unfold step, handler, pure. simpl. by rewrite decide_False.
  - simpl. rewrite length_app. simpl. do 2 f_equal. lia.
  - intros row col. unfold getCellValue. by rewrite Hs.
  - intros key. unfold getColumnWidth, getRowHeight. by rewrite Hs.
Qed.

Lemma new_sheet_is_blank_witness :
  ∃ st' s, step editing_B2 (AddNewSheet 1700000000000) = Done st' ∧
    sheets st' = sheets editing_B2 ++ [s] ∧ activeSheet st' = Some s ∧
    activeSheetId st' = JS.toString 1700000000000 ∧
    Sheet.id s = JS.toString 1700000000000 ∧
    Sheet.name s = "Sheet" +:+ JS.toString (Z.of_nat (length (sheets st')))  ∧
    (∀ row col, getCellValue st' row col = Some EmptyString) ∧
    (∀ key, getColumnWidth st' key = Some 96 ∧ getRowHeight st' key = Some 24) ∧
    Idle st'.
Proof.
  apply new_sheet_is_blank; [apply list_elem_of_here |].
  apply (bool_decide_unpack _). vm_compute. exact I.
Defined.

(** X13. Renaming.  [renameSheet] sets the name of the sheets carrying the
    id to the given string as it is, the empty string or a name already in
    use included, and changes nothing else: ids, cells, geometry, the other
    sheets, the selection and the active sheet are as before.  Of two
    renamings of one id the second wins. *)
Theorem rename_sets_name (st : State) (sheetId newName : string) :
  ∃ st', step st (RenameSheet sheetId newName) = Done st' ∧
    st' = setSheets (λ _, sheets st') st ∧
    length (sheets st') = length (sheets st) ∧
    (∀ (i : nat) s, sheets st !! i = Some s →
       ∃ s', sheets st' !! i = Some s' ∧
         Sheet.id s' = Sheet.id s ∧ Sheet.data s' = Sheet.data s ∧
         Sheet.columnWidths s' = Sheet.columnWidths s ∧
         Sheet.rowHeights s' = Sheet.rowHeights s ∧
         (Sheet.id s = sheetId → Sheet.name s' = newName) ∧
         (Sheet.id s ≠ sheetId → s' = s)) ∧
    ∀ earlier,
      run st [RenameSheet sheetId earlier; RenameSheet sheetId newName] = Done st'.
Proof.
  exists (renameSheet sheetId newName st). split_and!.
  - apply step_RenameSheet.
  - done.
  - simpl. apply length_fmap.
  - intros i s Hi. simpl. rewrite list_lookup_fmap, Hi. simpl.
    eexists. split; [reflexivity |]. case_decide; split_and!; done.
  - intros earlier.
    rewrite (run_cons _ _ _ _ (step_RenameSheet st sheetId earlier)).
    rewrite (run_cons _ _ _ _ (step_RenameSheet _ sheetId newName)).
    simpl. f_equal. unfold renameSheet, setSheets. simpl. f_equal.
    rewrite <- list_fmap_compose. apply list_fmap_ext. intros _ s _. simpl.
    destruct (decide (Sheet.id s = sheetId)) as [Hid | Hid]; simpl;
      [by rewrite decide_True | by rewrite decide_False].
Qed.

(** X14. Switching sheets and back.  With no cell input open, a click on
    the tab of another sheet writes nothing and clears the selection; a
    click back on the first tab finds every sheet as it was left. *)
Theorem switch_and_back (st : State) (target : string) :
  editingCell st = None → target ≠ activeSheetId st →
  ∃ st1 st2,
    step st (SheetTabClick target) = Done st1 ∧
    sheets st1 = sheets st ∧ activeSheetId st1 = target ∧ Idle st1 ∧
    step st1 (SheetTabClick (activeSheetId st)) = Done st2 ∧
    sheets st2 = sheets st ∧ activeSheetId st2 = activeSheetId st ∧ Idle st2.
Proof.
  intros Hed Hne.
  assert (Hclick : ∀ st0 sheetId, editingCell st0 = None →
            sheetTabClick st0 sheetId st0 = setActiveSheetId sheetId st0).
  { intros st0 sheetId H0. unfold sheetTabClick. rewrite H0.
    destruct (selectedCell st0) as [c |]; [| done].
    destruct (JS.truthy (Some c)); [| done]. by rewrite bool_decide_eq_false_2. }
  exists (clearSelection (setActiveSheetId target st)),
         (clearSelection (setActiveSheetId (activeSheetId st)
                            (clearSelection (setActiveSheetId target st)))).
  split_and!; try done.
  - unfold step, handler, pure. rewrite Hclick by done. simpl.
    by rewrite decide_False.
  - unfold step, handler, pure. rewrite Hclick by done. simpl.
    by rewrite decide_False.
Qed.

Lemma switch_and_back_witness :
  ∃ st1 st2,
    step two_sheets (SheetTabClick "1") = Done st1 ∧
    sheets st1 = sheets two_sheets ∧ activeSheetId st1 = "1" ∧ Idle st1 ∧
    step st1 (SheetTabClick (activeSheetId two_sheets)) = Done st2 ∧
    sheets st2 = sheets two_sheets ∧
    activeSheetId st2 = activeSheetId two_sheets ∧ Idle st2.
Proof. apply switch_and_back; [reflexivity | discriminate]. Defined.

(** ** Errors *)

Lemma handleKeyDown_Done snap key row col cur s :
  activeSheet snap = Some s → ∃ st', handleKeyDown snap key row col cur = Done st'.
Proof.
  intros Hs. unfold handleKeyDown.
  repeat case_decide; unfold bind, pure at 1;
    rewrite ?(handleCellClick_Done _ _ _ _ _ Hs); eauto.
Qed.

(** X15. No handler throws on a well-formed collection.  When
    [activeSheetId] names a sheet and the ids are pairwise distinct, every
    event runs to completion, whatever its arguments. *)
Theorem well_formed_never_throws (st : State) (e : Event) :
  has_active st → unique_ids st → ∃ st', step st e = Done st'.
Proof.
  intros Hact Hnd. destruct (activeSheet_has_active st Hact) as (s & Hs & _).
  assert (∃ st1, handler st e st = Done st1) as [st1 Hrun].
  2:{ unfold step. rewrite Hrun. eauto. }
  destruct e; simpl; unfold pure; eauto.
  - rewrite (handleCellClick_Done _ _ _ _ _ Hs). eauto.
  - by apply (handleKeyDown_Done _ _ _ _ _ s).
  - unfold deleteSheet. case_decide as Hlen; [unfold pure; eauto |].
    unfold bind, pure at 1. case_decide; [| unfold pure; eauto].
    assert (Hne : sheets st ≠ []).
    { intros Hnil. unfold has_active, sheetIds in Hact. rewrite Hnil in Hact.
      by apply elem_of_nil in Hact. }
    pose proof (remaining_nonempty sheetId (sheets st) Hne Hnd Hlen) as Hrem.
    unfold remaining in Hrem. unfold eval, JS.at_index. simpl.
    destruct (filter _ (sheets st)); [done | eauto].
  - unfold handleResizeStart, bind, pure, eval, getColumnWidth, getRowHeight.
    rewrite Hs. destruct type; simpl; eauto.
Qed.

Lemma well_formed_never_throws_witness :
  ∃ st', step two_sheets (DeleteSheet "1700000000000") = Done st'.
Proof.
  apply well_formed_never_throws; [apply list_elem_of_further, list_elem_of_here |].
  apply (bool_decide_unpack _). vm_compute. exact I.
Defined.

(** ** Invariants of the running interface *)

Section Delivered.

Implicit Types (st : State) (es : list Event) (l : list Z).

Lemma delivered_cons st e es st' :
  offered st e → step st e = Done st' → delivered st' es → delivered st (e :: es).
Proof. intros Hoff Hstep Hes. simpl. by rewrite Hstep. Qed.

Lemma delivered_throw st e es st' :
  offered st e → step st e = Threw st' → delivered st (e :: es).
Proof. intros Hoff Hstep. simpl. by rewrite Hstep. Qed.

Lemma filter_nil_Forall (sheetId : string) (sl : list Sheet.t) :
  filter (λ s, Sheet.id s ≠ sheetId) sl = [] →
  Forall (λ i, i = sheetId) (Sheet.id <$> sl).
Proof.
  induction sl as [| s sl IH]; [constructor |].
  rewrite filter_cons. destruct (decide (Sheet.id s ≠ sheetId)) as [Hne | Heq]; [done |].
  intros Hnil. rewrite fmap_cons. constructor; [| by apply IH].
  by destruct (decide (Sheet.id s = sheetId)).
Qed.

(** With the active sheet in the collection, the one handler that throws is
    [deleteSheet], on [newSheets[0].id], when every sheet of a collection of
    two or more carries the deleted id; [setSheets(newSheets)] has run by
    then and has emptied the collection. *)
Lemma step_Threw_inv st e st' :
  has_active st → step st e = Threw st' →
  ∃ sheetId, e = DeleteSheet sheetId ∧ sheets st' = [] ∧
             (1 < length (sheets st))%nat ∧
             Forall (λ i, i = sheetId) (sheetIds st).
Proof.
  intros Hact. destruct (activeSheet_has_active st Hact) as (s & Hs & _).
  unfold step. destruct (handler st e st) as [| st1] eqn:Hrun; [done |].
  intros [= <-].
  destruct e; simpl in Hrun; unfold pure in Hrun; try discriminate.
  - by rewrite (handleCellClick_Done _ _ _ _ _ Hs) in Hrun.
  - destruct (handleKeyDown_Done st key row col st s Hs) as [st2 Hk]. congruence.
  - exists sheetId. revert Hrun. unfold deleteSheet.
    case_decide as Hlen; [by unfold pure |].
    unfold bind, pure at 1. case_decide; [| by unfold pure].
    unfold eval, JS.at_index. simpl.
    destruct (filter _ (sheets st)) as [| s1 rest] eqn:Hrem; [| done].
    intros [= <-]. split_and!; [done | done | | by apply filter_nil_Forall].
    unfold has_active, sheetIds in Hact.
    destruct (sheets st) as [| s0 [| s1 rest]]; simpl in *; [| done | lia].
    by apply elem_of_nil in Hact.
  - revert Hrun.
    unfold handleResizeStart, bind, pure, eval, getColumnWidth, getRowHeight.
    rewrite Hs. by destruct type.
Qed.

Lemma step_sheetIds st e st' :
  step st e = Done st' → ¬ is_add e → ¬ is_delete e → sheetIds st' = sheetIds st.
Proof.
  intros Hstep Hadd Hdel.
  destruct (step_sheets_shape st e st' Hstep Hdel)
    as (f & extra & Hf & Hsh & [-> | ?]); [| done].
  unfold sheetIds. rewrite Hsh, app_nil_r, <- list_fmap_compose.
  apply list_fmap_ext. intros _ s _. simpl.
  by destruct (sheet_update_keeps st f s Hf) as (? & _).
Qed.

(** A delivered sequence keeps the invariants up to a throw, and a throw is
    the one of [step_Threw_inv]. *)
Lemma delivered_run_inv es : ∀ st,
  has_active st → selection_ok st → geometry_ok st → delivered st es →
  match run st es with
  | Done st' => has_active st' ∧ selection_ok st' ∧ geometry_ok st'
  | Threw st' =>
      sheets st' = [] ∧
      ∃ pre sheetId post st0,
        es = pre ++ DeleteSheet sheetId :: post ∧
        run st pre = Done st0 ∧
        step st0 (DeleteSheet sheetId) = Threw st' ∧
        (1 < length (sheets st0))%nat ∧
        Forall (λ i, i = sheetId) (sheetIds st0)
  end.
Proof.
  induction es as [| e es IH]; intros st Hact Hsel Hgeo Hdel; [done |].
  destruct Hdel as [Hoff Hrest]. simpl.
  destruct (step st e) as [st1 | st1] eqn:Hstep.
  - destruct (ui_step_inv st e st1 (conj Hact Hsel) Hoff Hstep) as [Hact1 Hsel1].
    pose proof (step_geometry_ok st e st1 Hgeo Hstep) as Hgeo1.
    specialize (IH st1 Hact1 Hsel1 Hgeo1 Hrest).
    destruct (run st1 es) as [st' | st']; [done |].
    destruct IH as (Hnil & pre & sheetId & post & st0 & -> & Hrun & Hthrow & Hlen & Hall).
    split; [done |]. exists (e :: pre), sheetId, post, st0.
    split_and!; try done. by rewrite (run_cons _ _ _ _ Hstep).
  - destruct (step_Threw_inv st e st1 Hact Hstep) as (sheetId & -> & Hnil & Hlen & Hall).
    split; [done |]. by exists [], sheetId, es, st.
Qed.

(** A delivered sequence whose clock readings are distinct from one another
    and from the numbers already rendered into ids never throws, and keeps
    the ids distinct. *)
Lemma delivered_run_unique es : ∀ st l,
  has_active st → selection_ok st → unique_ids st → ids_among l st →
  delivered st es → NoDup (l ++ clock_readings es) →
  ∃ st', run st es = Done st' ∧ unique_ids st'.
Proof.
  induction es as [| e es IH]; intros st l Hact Hsel Hnd Hids Hdel Hclock.
  { by exists st. }
  destruct Hdel as [Hoff Hrest].
  assert (Hwf : wf_collection st).
  { split_and!; [| done | done]. intros Hnil.
    unfold has_active, sheetIds in Hact. rewrite Hnil in Hact.
    by apply elem_of_nil in Hact. }
  assert (Hnext : ∀ st1 l1, step st e = Done st1 → unique_ids st1 →
            ids_among l1 st1 → l1 ++ clock_readings es = l ++ clock_readings (e :: es) →
            ∃ st', run st (e :: es) = Done st' ∧ unique_ids st').
  { intros st1 l1 Hstep Hnd1 Hids1 Hl. rewrite Hstep in Hrest.
    destruct (ui_step_inv st e st1 (conj Hact Hsel) Hoff Hstep) as [Hact1 Hsel1].
    rewrite (run_cons _ _ _ _ Hstep).
    apply (IH st1 l1); try done. by rewrite Hl. }
  assert (Hother : ¬ is_add e → ¬ is_delete e →
            clock_readings (e :: es) = clock_readings es →
            ∃ st', run st (e :: es) = Done st' ∧ unique_ids st').
  { intros Hadd Hdelete Hr.
    destruct (step st e) as [st1 | st1] eqn:Hstep.
    - pose proof (step_sheetIds st e st1 Hstep Hadd Hdelete) as Heq.
      apply (Hnext st1 l); [done | | | by rewrite Hr].
      + unfold unique_ids. by rewrite Heq.
      + unfold ids_among. by rewrite Heq.
    - destruct (step_Threw_inv st e st1 Hact Hstep) as (sheetId & -> & _).
      by destruct Hdelete. }
  destruct e; try (apply Hother; simpl; tauto).
  - assert (Hnotin : now ∉ l).
    { apply NoDup_app in Hclock as (_ & Hdisj & _).
      intros Hin. apply (Hdisj now Hin). left. }
    destruct (step_create_inv st l now Hwf Hids Hnotin)
      as (st1 & Hstep & _ & (_ & _ & Hnd1) & Hids1).
    apply (Hnext st1 (l ++ [now])); try done.
    by rewrite <- app_assoc.
  - destruct (step_delete_inv st l sheetId Hwf Hids)
      as (st1 & Hstep & (_ & _ & Hnd1) & Hids1).
    by apply (Hnext st1 l).
Qed.

End Delivered.

(** X16. What the running interface keeps.  Take any sequence of events
    delivered by the rendered interface from the initial state, each one
    offered in the state it fires in.  If no handler throws, then at the
    end the collection is not empty and [activeSheetId] names one of its
    sheets, which is the sheet displayed; a selected cell is a cell of the
    50 x 26 grid; an open input sits on the selected cell; every stored size
    respects its minimum; and the ids are pairwise distinct when the clock
    readings are distinct from one another and from 1.  A handler throws
    only in one way: two or more sheets all carry one id, the delete button
    of one of them is pressed, and [deleteSheet] stops on [newSheets[0].id]
    after storing an empty collection, so that there is no active sheet any
    more; this needs two creations at one clock reading, or one at 1. *)
Theorem interface_invariants (es : list Event) :
  delivered initialState es →
  match run initialState es with
  | Done st =>
      sheets st ≠ [] ∧ has_active st ∧
      (∃ s, activeSheet st = Some s ∧ Sheet.id s = activeSheetId st) ∧
      (∀ c, selectedCell st = Some c →
            c ≠ EmptyString ∧
            ∃ row col, in_grid row col = true ∧ c = getCellId row col) ∧
      (∀ c, editingCell st = Some c → selectedCell st = Some c) ∧
      geometry_ok st ∧
      (readings_distinct es → unique_ids st)
  | Threw st =>
      sheets st = [] ∧ activeSheet st = None ∧
      ¬ readings_distinct es ∧
      ∃ pre sheetId post st0,
        es = pre ++ DeleteSheet sheetId :: post ∧
        run initialState pre = Done st0 ∧
        step st0 (DeleteSheet sheetId) = Threw st ∧
        (1 < length (sheets st0))%nat ∧
        Forall (λ i, i = sheetId) (sheetIds st0)
  end.
Proof.
  intros Hdel.
  assert (Hact0 : has_active initialState) by apply list_elem_of_here.
  assert (Hsel0 : selection_ok initialState) by by split.
  assert (Hgeo0 : geometry_ok initialState).
  { apply Forall_singleton. by intros [] m. }
  assert (Huniq : readings_distinct es →
            ∃ st, run initialState es = Done st ∧ unique_ids st).
  { intros Hclock.
    apply (delivered_run_unique es initialState [1]); try done.
    - apply NoDup_singleton.
    - apply Forall_singleton, list_elem_of_here. }
  pose proof (delivered_run_inv es initialState Hact0 Hsel0 Hgeo0 Hdel) as Hinv.
  destruct (run initialState es) as [st | st].
  - destruct Hinv as (Hact & [Hsel Hed] & Hgeo). split_and!; try done.
    + intros Hnil. unfold has_active, sheetIds in Hact. rewrite Hnil in Hact.
      by apply elem_of_nil in Hact.
    + by apply activeSheet_has_active.
    + intros c Hc. destruct (Hsel c Hc) as (row & col & Hg & ->).
      split; [apply getCellId_nonempty | eauto].
    + intros Hclock. by destruct (Huniq Hclock) as (st' & [= <-] & Hnd).
  - destruct Hinv as [Hnil Hthrow]. split_and!; try done.
    + unfold activeSheet. by rewrite Hnil.
    + intros Hclock. by destruct (Huniq Hclock) as (st' & [=] & _).
Qed.

Lemma interface_invariants_witness :
  (∃ st, run initialState sample_clicks = Done st ∧
         sheets st ≠ [] ∧ has_active st ∧ geometry_ok st ∧ unique_ids st) ∧
  (∃ st, run initialState sample_double_creation = Threw st ∧
         sheets st = [] ∧ activeSheet st = None ∧
         ¬ readings_distinct sample_double_creation).
Proof.
  split.
  - assert (Hdel : delivered initialState sample_clicks).
    { eapply delivered_cons; [reflexivity | vm_compute; reflexivity |].
      eapply delivered_cons;
        [exists 1, 1; split; vm_compute; reflexivity | vm_compute; reflexivity |].
      eapply delivered_cons; [exact I | vm_compute; reflexivity |].
      eapply delivered_cons; [| vm_compute; reflexivity | exact I].
      apply (bool_decide_unpack _). vm_compute. exact I. }
    assert (Hclock : readings_distinct sample_clicks).
    { apply (bool_decide_unpack _). vm_compute. exact I. }
    pose proof (interface_invariants sample_clicks Hdel) as H.
    destruct (run initialState sample_clicks) as [st | st] eqn:Hrun.
    + exists st. destruct H as (Hne & Hact & _ & _ & _ & Hgeo & Hnd).
      exact (conj eq_refl (conj Hne (conj Hact (conj Hgeo (Hnd Hclock))))).
    + vm_compute in Hrun. discriminate.
  - assert (Hdel : delivered initialState sample_double_creation).
    { eapply delivered_cons; [exact I | vm_compute; reflexivity |].
      eapply delivered_cons; [exact I | vm_compute; reflexivity |].
      eapply delivered_cons; [| vm_compute; reflexivity |].
      { apply (bool_decide_unpack _). vm_compute. exact I. }
      eapply delivered_throw; [| vm_compute; reflexivity].
      apply (bool_decide_unpack _). vm_compute. exact I. }
    pose proof (interface_invariants sample_double_creation Hdel) as H.
    destruct (run initialState sample_double_creation) as [st | st] eqn:Hrun.
    + vm_compute in Hrun. discriminate.
    + exists st. destruct H as (Hnil & Hnone & Hclock & _).
      exact (conj eq_refl (conj Hnil (conj Hnone Hclock))).
Defined.

(** ** The formula bar *)

Lemma getCellId_number_Some (row col : Z) :
  getCellId_number (Some row) col = getCellId row col.
Proof. reflexivity. Qed.

(** X17. What the formula bar shows.  With a cell of the grid selected and
    a sheet active, the bar shows the draft while the cell's input is open
    and the stored value of the selected cell otherwise: the id is decoded
    to its row and column and read back through [getCellValue]. *)
Theorem formula_bar_shows (st : State) (row col : Z) :
  has_active st → in_grid row col = true →
  selectedCell st = Some (getCellId row col) →
  ∃ s, activeSheet st = Some s ∧
       formulaBarValue st
       = Some (if decide (editingCell st = Some (getCellId row col))
               then cellValue st else getCell s (getCellId row col)).
Proof.
  intros Hact Hgrid Hsel.
  destruct (activeSheet_has_active st Hact) as (s & Hs & _).
  apply bool_decide_eq_true in Hgrid as [Hr Hc].
  exists s. split; [done |]. unfold formulaBarValue. rewrite Hsel.
  case_decide; [done |].
  rewrite truthy_Some by apply getCellId_nonempty.
  rewrite rowOf_getCellId, colOf_getCellId by (done || lia).
  unfold getCellValue_number. by rewrite Hs, getCellId_number_Some.
Qed.

Lemma formula_bar_shows_witness :
  ∃ s, activeSheet editing_Z50 = Some s ∧
       formulaBarValue editing_Z50
       = Some (if decide (editingCell editing_Z50 = Some (getCellId 49 25))
               then cellValue editing_Z50 else getCell s (getCellId 49 25)).
Proof.
  apply formula_bar_shows; [apply list_elem_of_here | reflexivity | reflexivity].
Defined.

(** X18. Typing in the formula bar with no cell selected writes to no
    sheet.  The text is only kept as the bar's own value, shown back while
    nothing is selected, although the name box reads "A1". *)
Theorem formula_bar_without_selection (st : State) (value : string) :
  selectedCell st = None →
  ∃ st', step st (FormulaBarChange value) = Done st' ∧
    st' = setCellValue value st ∧ sheets st' = sheets st ∧
    nameBox st' = "A1" ∧
    (editingCell st = None → formulaBarValue st' = Some value).
Proof.
  intros Hsel. exists (setCellValue value st). split_and!; try done.
  - unfold step, handler, pure, formulaBarChange. rewrite Hsel.
    by rewrite decide_True.
  - unfold nameBox. simpl. by rewrite Hsel.
  - intros Hed. unfold formulaBarValue. simpl. rewrite Hed, Hsel.
    by rewrite decide_True.
Qed.

Lemma formula_bar_without_selection_witness :
  ∃ st', step initialState (FormulaBarChange "=SUM(A1:A3)") = Done st' ∧
    st' = setCellValue "=SUM(A1:A3)" initialState ∧
    sheets st' = sheets initialState ∧ nameBox st' = "A1" ∧
    (editingCell initialState = None → formulaBarValue st' = Some "=SUM(A1:A3)").
Proof. by apply formula_bar_without_selection. Defined.

(** ** Deleting a sheet while a cell input is open *)

(** X19. Deleting a sheet other than the active one keeps the editing
    session and its draft, and every sheet with another id stays in the
    collection.  Deleting the active sheet clears the selection: the draft
    is dropped, written to none of the remaining sheets. *)
Theorem delete_while_editing (st : State) (cellId draft sheetId : string) :
  Editing st cellId draft → length (sheets st) ≠ 1%nat →
  (activeSheetId st ≠ sheetId →
     ∃ st', step st (DeleteSheet sheetId) = Done st' ∧
       Editing st' cellId draft ∧ activeSheetId st' = activeSheetId st ∧
       ∀ s, s ∈ sheets st → Sheet.id s ≠ sheetId → s ∈ sheets st') ∧
  (activeSheetId st = sheetId → ∀ s rest,
     remaining sheetId (sheets st) = s :: rest →
     ∃ st', step st (DeleteSheet sheetId) = Done st' ∧
       Idle st' ∧ activeSheetId st' = Sheet.id s ∧
       ∀ s', s' ∈ sheets st' → s' ∈ sheets st).
Proof.
  intros Hed Hlen. split.
  - intros Hact. rewrite step_DeleteSheet_inactive by done.
    eexists. split; [reflexivity |]. split_and!; try done.
    intros s Hs Hid. simpl. unfold remaining. by apply list_elem_of_filter.
  - intros Hact s rest Hrem.
    rewrite (step_DeleteSheet_active st sheetId s rest) by done.
    eexists. split; [reflexivity |]. split_and!; try done.
    intros s' Hs'. simpl in Hs'. rewrite <- Hrem in Hs'. unfold remaining in Hs'.
    by apply list_elem_of_filter in Hs' as [_ ?].
Qed.

Lemma delete_while_editing_witness :
  ∃ st', step two_sheets_editing_C3 (DeleteSheet "1700000000000") = Done st' ∧
    Editing st' "C3" "draft" ∧ activeSheetId st' = "1" ∧
    ∀ s, s ∈ sheets two_sheets_editing_C3 → Sheet.id s ≠ "1700000000000" →
         s ∈ sheets st'.
Proof.
  assert (Hed : Editing two_sheets_editing_C3 "C3" "draft") by (repeat split; reflexivity).
  assert (Hlen : length (sheets two_sheets_editing_C3) ≠ 1%nat) by (simpl; lia).
  apply (proj1 (delete_while_editing two_sheets_editing_C3 "C3" "draft"
                  "1700000000000" Hed Hlen)).
  discriminate.
Defined.

(** ** Sheet names *)

Section Names.

Implicit Types (st : State).

Lemma step_AddNewSheet_names st now :
  ∃ st', step st (AddNewSheet now) = Done st' ∧
    sheetIds st' = sheetIds st ++ [JS.toString now] ∧
    sheetNames st'
    = sheetNames st ++ ["Sheet" +:+ JS.toString (Z.of_nat (length (sheets st)) + 1)] ∧
    length (sheets st') = S (length (sheets st)).
Proof.
  unfold step, handler, pure, addNewSheet. eexists. split; [reflexivity |].
  case_decide; unfold sheetIds, sheetNames; simpl;
    rewrite !fmap_app, length_app; simpl; (split_and!; [done | done | lia]).
Qed.

(** Deleting the first of the sheets that follow the head of the
    collection, when its id is carried by no other sheet. *)
Lemma step_DeleteSheet_second st s0 s1 rest :
  sheets st = s0 :: s1 :: rest →
  Sheet.id s1 ∉ (Sheet.id <$> s0 :: rest) →
  ∃ st', step st (DeleteSheet (Sheet.id s1)) = Done st' ∧ sheets st' = s0 :: rest.
Proof.
  intros Hsheets Hnotin.
  rewrite fmap_cons, not_elem_of_cons in Hnotin. destruct Hnotin as [Hne0 Hrest].
  assert (Hrem : remaining (Sheet.id s1) (sheets st) = s0 :: rest).
  { rewrite Hsheets. unfold remaining.
    rewrite filter_cons_True by done. rewrite filter_cons_False by (by intros ?).
    f_equal. by apply remaining_absent. }
  assert (Hlen : length (sheets st) ≠ 1%nat) by by rewrite Hsheets.
  destruct (decide (activeSheetId st = Sheet.id s1)) as [Hact | Hact].
  - rewrite (step_DeleteSheet_active st _ s0 rest) by done. eauto.
  - rewrite step_DeleteSheet_inactive by done. rewrite Hrem. eauto.
Qed.

End Names.

(** X20. Sheet names can repeat.  The name of a new sheet is made from the
    number of sheets, not from a counter: starting from the initial
    collection, adding two sheets, deleting the first of them and adding
    another gives two tabs named "Sheet3", whatever the clock readings,
    provided the first differs from 1 and from the second. *)
Theorem sheet_names_can_repeat (t1 t2 t3 : Z) :
  t1 ≠ 1 → t1 ≠ t2 →
  ∃ st, run initialState [AddNewSheet t1; AddNewSheet t2;
                          DeleteSheet (JS.toString t1); AddNewSheet t3] = Done st ∧
        sheetNames st = ["Sheet1"; "Sheet3"; "Sheet3"] ∧
        sheetIds st = ["1"; JS.toString t2; JS.toString t3].
Proof.
  intros H1 H12.
  destruct (step_AddNewSheet_names initialState t1) as (st1 & Hs1 & Hi1 & Hn1 & Hl1).
  destruct (step_AddNewSheet_names st1 t2) as (st2 & Hs2 & Hi2 & Hn2 & Hl2).
  rewrite Hl1 in Hn2. rewrite Hi1 in Hi2. rewrite Hn1 in Hn2.
  change (sheetIds initialState) with ["1"] in Hi2.
  change (sheetNames initialState) with ["Sheet1"] in Hn2.
  simpl in Hi2, Hn2.
  unfold sheetIds in Hi2. unfold sheetNames in Hn2.
  destruct (sheets st2) as [| s0 [| s1 [| s2 [| ? ?]]]] eqn:Hsh2; try done.
  injection Hi2 as Hid0 Hid1 Hid2. injection Hn2 as Hnm0 Hnm1 Hnm2.
  destruct (step_DeleteSheet_second st2 s0 s1 [s2] Hsh2) as (st3 & Hs3 & Hsh3).
  { simpl. rewrite Hid0, Hid1, Hid2. rewrite !not_elem_of_cons. split_and!.
    - change "1" with (JS.toString 1). intros Heq. by apply (inj pretty) in Heq.
    - intros Heq. by apply (inj pretty) in Heq.
    - apply not_elem_of_nil. }
  destruct (step_AddNewSheet_names st3 t3) as (st4 & Hs4 & Hi4 & Hn4 & _).
  exists st4. rewrite <- Hid1.
  rewrite (run_cons _ _ _ _ Hs1), (run_cons _ _ _ _ Hs2).
  rewrite (run_cons _ _ _ _ Hs3), (run_cons _ _ _ _ Hs4).
  split; [done |].
  rewrite Hn4, Hi4. unfold sheetNames, sheetIds. rewrite Hsh3. simpl.
  by rewrite Hnm0, Hnm2, Hid0, Hid2.
Qed.

Lemma sheet_names_can_repeat_witness :
  ∃ st, run initialState [AddNewSheet 1700000000000; AddNewSheet 1700000000500;
                          DeleteSheet (JS.toString 1700000000000);
                          AddNewSheet 1700000001000] = Done st ∧
        sheetNames st = ["Sheet1"; "Sheet3"; "Sheet3"] ∧
        sheetIds st = ["1"; JS.toString 1700000000500; JS.toString 1700000001000].
Proof. apply sheet_names_can_repeat; lia. Defined.

(** ** The hosting page: admin detection and the session *)

Section PageProperties.

Lemma string_app_assoc (a b c : string) : (a +:+ b) +:+ c = a +:+ b +:+ c.
Proof.
  induction a as [| x a IH]; [done |].
  change (String x ((a +:+ b) +:+ c) = String x (a +:+ b +:+ c)). by rewrite IH.
Qed.

Lemma string_prefix_app (sub s : string) :
  String.prefix sub s = true ↔ ∃ post, s = sub +:+ post.
Proof.
  revert s. induction sub as [| c sub IH]; intros s; simpl.
  - split; [by exists s | by destruct s].
  - destruct s as [| c' s]; simpl.
    + split; [done | by intros [? ?]].
    + destruct (Ascii.ascii_dec c c') as [-> | Hne].
      * rewrite IH. split; intros [post Hpost]; exists post.
        -- by rewrite Hpost.
        -- simpl in Hpost. by injection Hpost.
      * split; [done | intros [post [= ? ?]]; done].
Qed.

Lemma includes_app (s sub : string) :
  Page.includes s sub = true ↔ ∃ pre post, s = pre +:+ sub +:+ post.
Proof.
  induction s as [| c s IH].
  - change (Page.includes EmptyString sub) with (String.prefix sub EmptyString || false).
    rewrite orb_false_r, string_prefix_app. split.
    + intros [post ->]. by exists EmptyString, post.
    + intros (pre & post & Heq). destruct pre; [eauto | done].
  - change (Page.includes (String c s) sub)
      with (String.prefix sub (String c s) || Page.includes s sub).
    rewrite orb_true_iff, string_prefix_app, IH. split.
    + intros [[post ->] | (pre & post & ->)].
      * by exists EmptyString, post.
      * by exists (String c pre), post.
    + intros (pre & post & Heq). destruct pre as [| c' pre]; simpl in Heq.
      * left. eauto.
      * right. injection Heq as -> ->. eauto.
Qed.

Lemma endsWith_app (s suffix : string) :
  Page.endsWith s suffix = true ↔ ∃ pre, s = pre +:+ suffix.
Proof.
  induction s as [| c s IH].
  - change (Page.endsWith EmptyString suffix) with (String.eqb EmptyString suffix || false).
    rewrite orb_false_r, String.eqb_eq. split.
    + intros <-. by exists EmptyString.
    + intros [pre Heq]. by destruct pre, suffix.
  - change (Page.endsWith (String c s) suffix)
      with (String.eqb (String c s) suffix || Page.endsWith s suffix).
    rewrite orb_true_iff, String.eqb_eq, IH. split.
    + intros [<- | [pre ->]]; [by exists EmptyString | by exists (String c pre)].
    + intros [pre Heq]. destruct pre as [| c' pre]; simpl in Heq.
      * by left.
      * right. injection Heq as -> ->. eauto.
Qed.

Lemma toLowerCase_app (a b : string) :
  Page.toLowerCase (a +:+ b) = Page.toLowerCase a +:+ Page.toLowerCase b.
Proof. induction a as [| c a IH]; simpl; [done | by rewrite IH]. Qed.

Lemma toLowerCase_split (s a b : string) :
  Page.toLowerCase s = a +:+ b →
  ∃ a0 b0, s = a0 +:+ b0 ∧ Page.toLowerCase a0 = a ∧ Page.toLowerCase b0 = b.
Proof.
  revert s. induction a as [| c a IH]; intros s Heq; simpl in Heq.
  - by exists EmptyString, s.
  - destruct s as [| c0 s]; [done |]. simpl in Heq. injection Heq as Hc Hrest.
    destruct (IH s Hrest) as (a0 & b0 & -> & Ha & Hb).
    exists (String c0 a0), b0. simpl. by rewrite Hc, Ha.
Qed.

End PageProperties.

Lemma endsWith_domain_includes_admin (s : string) :
  Page.endsWith s "@admin.excelpro.com" = true → Page.includes s "admin" = true.
Proof.
  intros Hends. apply endsWith_app in Hends as [pre ->].
  apply includes_app. exists (pre +:+ "@"), ".excelpro.com".
  by rewrite string_app_assoc.
Qed.

(** X21. The second test of [checkAdminStatus] never decides: an address
    ending in "@admin.excelpro.com" already contains "admin", so the result
    is that of the first test alone. *)
Theorem checkAdminStatus_first_test (email : string) :
  Page.checkAdminStatus email
  = Page.includes (Page.toLowerCase email) "admin".
Proof.
  unfold Page.checkAdminStatus.
  destruct (Page.endsWith (Page.toLowerCase email) "@admin.excelpro.com") eqn:Hends.
  - rewrite orb_true_r. symmetry. by apply endsWith_domain_includes_admin.
  - by rewrite orb_false_r.
Qed.

(** X22. Who is an admin: exactly the addresses that contain the letters
    a, d, m, i, n in a row, in any mix of upper and lower case, anywhere in
    the address. *)
Theorem checkAdminStatus_iff (email : string) :
  Page.checkAdminStatus email = true ↔
  ∃ pre word post, email = pre +:+ word +:+ post ∧ Page.toLowerCase word = "admin".
Proof.
  unfold Page.checkAdminStatus. rewrite orb_true_iff. split.
  - intros Hadmin.
    assert (Hinc : Page.includes (Page.toLowerCase email) "admin" = true).
    { destruct Hadmin as [? | Hends]; [done |].
      by apply endsWith_domain_includes_admin. }
    apply includes_app in Hinc as (pre & post & Heq).
    apply toLowerCase_split in Heq as (pre0 & rest & -> & _ & Hrest).
    apply toLowerCase_split in Hrest as (word & post0 & -> & Hword & _).
    eauto.
  - intros (pre & word & post & -> & Hword). left. apply includes_app.
    exists (Page.toLowerCase pre), (Page.toLowerCase post).
    by rewrite !toLowerCase_app, Hword.
Qed.

Example checkAdminStatus_examples :
  Page.checkAdminStatus "Root@Admin.ExcelPro.com" = true ∧
  Page.checkAdminStatus "badminton.club@example.org" = true ∧
  Page.checkAdminStatus "ADMINISTRATOR" = true ∧
  Page.checkAdminStatus "alice@example.org" = false ∧
  Page.checkAdminStatus "" = false.
Proof. by vm_compute. Qed.


Lemma page_step_inv (P : Page.Platform) (st : Page.State) (e : Page.Event)
    (st' : Page.State) :
  Page.flag_mirrors_address st → Page.step P st e = Some st' →
  Page.flag_mirrors_address st'.
Proof.
  unfold Page.flag_mirrors_address. intros Hinv Hstep.
  destruct e; simpl in Hstep.
  - unfold Page.mountEffect in Hstep. simpl in Hstep.
    destruct (JS.truthy _); [| by injection Hstep as <-].
    destruct (Page.excelProAuth st ≫= Page.parse_email P); [| done].
    by injection Hstep as <-.
  - by injection Hstep as <-.
  - by injection Hstep as <-.
  - by injection Hstep as <-.
  - by injection Hstep as <-.
Qed.

(** X23. The admin panel is for admin addresses only.  However the page is
    driven from a fresh mount over any storage (reloads, logins, logouts,
    navigation in either direction), the admin flag equals the admin test of
    the session's address; the admin panel is rendered, and the spreadsheet
    is given its Admin Panel button, only in an authenticated session whose
    address passes [checkAdminStatus]; and the login form is rendered
    exactly when no session is authenticated. *)
Theorem admin_panel_only_for_admins (P : Page.Platform)
    (storage : option string) (es : list Page.Event) (st : Page.State) :
  Page.run P (Page.mounted storage) es = Some st →
  Page.flag_mirrors_address st ∧
  (Page.render st = Page.AdminPanelView ∨
   Page.render st = Page.SpreadsheetView true →
   Page.isAuthenticated st = true ∧
   Page.checkAdminStatus (Page.userEmail st) = true) ∧
  (Page.render st = Page.LoginView ↔ Page.isAuthenticated st = false).
Proof.
  intros Hrun.
  assert (Hinv : Page.flag_mirrors_address st).
  { assert (H0 : Page.flag_mirrors_address (Page.mounted storage)) by done.
    revert Hrun H0. generalize (Page.mounted storage) as st0.
    induction es as [| e es IH]; intros st0 Hrun H0; simpl in Hrun.
    - by injection Hrun as <-.
    - destruct (Page.step P st0 e) as [st1 |] eqn:Hstep; [| done].
      simpl in Hrun. eauto using page_step_inv. }
  split; [done |]. unfold Page.flag_mirrors_address in Hinv.
  unfold Page.render. destruct st as [auth email adm view stor]. simpl in *.
  subst adm.
  destruct auth, view, (Page.checkAdminStatus email); simpl;
    (split; [intros [Hr | Hr]; by simplify_eq | by split]).
Qed.

Lemma admin_panel_only_for_admins_witness :
  Page.flag_mirrors_address Page.sample_session ∧
  (Page.render Page.sample_session = Page.AdminPanelView ∨
   Page.render Page.sample_session = Page.SpreadsheetView true →
   Page.isAuthenticated Page.sample_session = true ∧
   Page.checkAdminStatus (Page.userEmail Page.sample_session) = true) ∧
  (Page.render Page.sample_session = Page.LoginView ↔
   Page.isAuthenticated Page.sample_session = false).
Proof.
  apply (admin_panel_only_for_admins Page.sample_platform None
           [Page.Login "root@admin.excelpro.com" "secret" "2026-11-01T00:00:00.000Z";
            Page.Reload]).
  reflexivity.
Defined.

(** X24. The session life cycle.  A login succeeds for every address and
    password, empty ones included: the session is authenticated, the record
    is stored, and the view is the admin panel for an admin address and the
    spreadsheet without Admin Panel button otherwise.  A logout from any
    state removes the stored record and gives the fresh unauthenticated
    page; a reload after it, or over an absent or empty stored item, shows
    the login form. *)
Theorem session_life_cycle (P : Page.Platform) (st : Page.State) :
  (∀ email password loginTime, ∃ st',
     Page.step P st (Page.Login email password loginTime) = Some st' ∧
     Page.isAuthenticated st' = true ∧ Page.userEmail st' = email ∧
     Page.excelProAuth st' = Some (Page.stringify P email loginTime) ∧
     Page.render st'
     = if Page.checkAdminStatus email
       then Page.AdminPanelView else Page.SpreadsheetView false) ∧
  Page.run P st [Page.Logout] = Some (Page.mounted None) ∧
  Page.run P st [Page.Logout; Page.Reload] = Some (Page.mounted None) ∧
  Page.render (Page.mounted None) = Page.LoginView ∧
  (Page.excelProAuth st = None ∨ Page.excelProAuth st = Some EmptyString →
   Page.step P st Page.Reload = Some (Page.mounted (Page.excelProAuth st))).
Proof.
  split_and!; try done.
  - intros email password loginTime. eexists. split; [reflexivity |].
    split_and!; try done.
    unfold Page.render. simpl. by destruct (Page.checkAdminStatus email).
  - intros [Hs | Hs]; simpl; unfold Page.mountEffect; simpl; by rewrite Hs.
Qed.

(** ** Coming back to a cell *)

(** X25. What was typed is found again.  After a commit by blur, a click on
    the same cell reopens it with the committed draft.  The same holds
    across a sheet switch: with an input open, a click on another sheet's
    tab, a click back on the first tab and a click on the cell reopen it
    with the draft that the switch flushed. *)
Theorem draft_found_again (st : State) (row col : Z) (draft : string) :
  Editing st (getCellId row col) draft → has_active st →
  (∃ st', run st [CellBlur; CellClick row col] = Done st' ∧
          Editing st' (getCellId row col) draft ∧
          activeSheetId st' = activeSheetId st) ∧
  (∀ target, target ≠ activeSheetId st →
     ∃ st', run st [SheetTabClick target; SheetTabClick (activeSheetId st);
                    CellClick row col] = Done st' ∧
            Editing st' (getCellId row col) draft ∧
            activeSheetId st' = activeSheetId st).
Proof.
  intros Hed Hact. pose proof (getCellId_nonempty row col) as Hne.
  destruct (activeSheet_has_active st Hact) as (s & Hs & Hsid).
  assert (Hreopen : ∀ st1,
            activeSheetId st1 = activeSheetId st →
            sheets st1 = setCell (activeSheetId st) (getCellId row col) draft (sheets st) →
            ∃ st', step st1 (CellClick row col) = Done st' ∧
                   Editing st' (getCellId row col) draft ∧
                   activeSheetId st' = activeSheetId st).
  { intros st1 Hid Hsheets.
    pose proof (activeSheet_setCell st st1 _ _ _ Hid Hsheets) as Hs1.
    rewrite Hs in Hs1. simpl in Hs1.
    unfold step, handler. rewrite (handleCellClick_Done _ _ _ _ _ Hs1). simpl.
    rewrite decide_True by done. eexists. split; [reflexivity |].
    split; [| done]. repeat split. simpl.
    by apply getCell_writeCell_target. }
  split.
  - rewrite (run_cons _ _ _ _ (step_CellBlur st _ _ Hed Hne)).
    destruct (Hreopen (setEditingCell None
                (setSheets (setCell (activeSheetId st) (getCellId row col) draft) st)))
      as (st' & Hstep & Hst'); [done | done |].
    exists st'. by rewrite (run_cons _ _ _ _ Hstep).
  - intros target Htarget.
    pose (st1 := clearSelection (setActiveSheetId target
                   (setSheets (setCell (activeSheetId st) (getCellId row col) draft) st))).
    pose (st2 := clearSelection (setActiveSheetId (activeSheetId st) st1)).
    assert (Hstep1 : step st (SheetTabClick target) = Done st1).
    { rewrite (step_SheetTabClick_Editing _ _ _ _ Hed Hne).
      by rewrite decide_False. }
    assert (Hstep2 : step st1 (SheetTabClick (activeSheetId st)) = Done st2).
    { unfold step, handler, pure, sheetTabClick. simpl.
      rewrite decide_False by done. done. }
    destruct (Hreopen st2) as (st' & Hstep & Hst'); [done | done |].
    exists st'.
    rewrite (run_cons _ _ _ _ Hstep1), (run_cons _ _ _ _ Hstep2).
    by rewrite (run_cons _ _ _ _ Hstep).
Qed.

Lemma draft_found_again_witness :
  ∃ st', run editing_B2 [CellBlur; CellClick 1 1] = Done st' ∧
         Editing st' (getCellId 1 1) "42" ∧
         activeSheetId st' = activeSheetId editing_B2.
Proof.
  assert (Hed : Editing editing_B2 (getCellId 1 1) "42") by (repeat split; reflexivity).
  assert (Hact : has_active editing_B2) by apply list_elem_of_here.
  exact (proj1 (draft_found_again editing_B2 1 1 "42" Hed Hact)).
Defined.
